(** * A shallow embedding of the OpenAI forwarding proxy (main.go)

    The development follows the Go program: the Lua hook manager, the
    built-in prompt hook, the content codec, the forwarding handler and
    the bounded trace history.  Go values are modelled as the code has
    them: [[]byte] as [list byte], [string] as [string], [http.Header]
    (a [map[string][]string]) as [gmap string (list string)], a nilable
    [error] as [option error].

    What the program only calls (the Lua virtual machine, encoding/json,
    compress/gzip, brotli, the HTTP client) and what Go leaves open (the
    order of [range] over a map) are interfaces: type classes whose
    methods the program's functions are written against.  The general
    theorems hold for every implementation; small instances are given
    to evaluate the program on concrete inputs.

    Besides these: the hub that sends traces to the viewers (a state
    machine over the connections, with the peers' answers to writes as
    an input), the list the viewer keeps (web/src/App.js), the trace
    identifiers, and the functions of the first version of the program,
    which main.go also holds, to compare the two.

    Not modelled: log output, wall-clock time, and the interleaving of
    concurrently running handlers (a handler is a function from the
    state it finds to the state it leaves). *)

From Stdlib Require Import ZArith Ascii String.
From Stdlib.Strings Require Import Byte.
From stdpp Require Import gmap strings list fin_maps pretty sorting.

Set Warnings "-register-all".

(** ** Go basics *)

Abbreviation bytes := (list byte).
Abbreviation Header := (gmap string (list string)).

(** A Go [error] value is represented by its message; [nil] is [None]. *)
Definition error : Type := string.

(** A Go pair [(value, err)] of which exactly one part is meaningful. *)
Inductive result (A : Type) : Type :=
| Ok (v : A)
| Err (e : error).
Arguments Ok {A} v.
Arguments Err {A} e.

(** [string(b)] and [[]byte(s)]: conversions that keep every byte. *)
Definition string_of_bytes (b : bytes) : string := string_of_list_byte b.
Definition bytes_of_string (s : string) : bytes := list_byte_of_string s.

(** The line feed and the double quote, which string literals here avoid. *)
Definition LF : string := String (ascii_of_nat 10) EmptyString.
Definition DQ : string := String (ascii_of_nat 34) EmptyString.

Fixpoint string_map (f : ascii → ascii) (s : string) : string :=
  match s with
  | EmptyString => EmptyString
  | String c s' => String (f c) (string_map f s')
  end.

Fixpoint string_forallb (p : ascii → bool) (s : string) : bool :=
  match s with
  | EmptyString => true
  | String c s' => p c && string_forallb p s'
  end.

Definition in_range (lo hi : N) (c : ascii) : bool :=
  ((lo <=? N_of_ascii c) && (N_of_ascii c <=? hi))%N.

Definition is_upper (c : ascii) : bool := in_range 65 90 c.
Definition is_lower (c : ascii) : bool := in_range 97 122 c.
Definition is_digit (c : ascii) : bool := in_range 48 57 c.

Definition to_lower_ascii (c : ascii) : ascii :=
  if is_upper c then ascii_of_N (N_of_ascii c + 32) else c.
Definition to_upper_ascii (c : ascii) : ascii :=
  if is_lower c then ascii_of_N (N_of_ascii c - 32) else c.

(** ** The order of [range] over a map

    Go does not fix the order in which [range] visits the entries of a
    map.  The order is an interface of the runtime: some order of the
    map's entries. *)
Class Runtime := {
  rangeOrder : ∀ {A : Type}, gmap string A → list (string * A);
  rangeOrder_perm : ∀ {A : Type} (m : gmap string A), rangeOrder m ≡ₚ map_to_list m
}.

(** [for k, v := range m { acc = f(k, v, acc) }]. *)
Definition range {rt : Runtime} {A B : Type} (m : gmap string A)
    (f : string → A → B → B) (init : B) : B :=
  foldl (λ acc kv, f kv.1 kv.2 acc) init (rangeOrder m).

(** ** Package strings *)

(** Case mapping of text that is not plain ASCII is left to the
    implementation (package unicode). *)
Class Unicode := { unicode_ToLower : string → string }.

Module GoStrings.

Definition HasPrefix (s pre : string) : bool := String.prefix pre s.

Fixpoint Contains (s substr : string) : bool :=
  String.prefix substr s ||
  match s with
  | EmptyString => false
  | String _ s' => Contains s' substr
  end.

(** [strings.ToLower]: a byte loop for ASCII-only strings, the Unicode
    mapping for the others. *)
Definition ToLower {uni : Unicode} (s : string) : string :=
  if string_forallb (in_range 0 127) s
  then string_map to_lower_ascii s
  else unicode_ToLower s.

End GoStrings.

(** ** Package net/textproto *)

Module Textproto.

(** The token characters of RFC 7230. *)
Definition validHeaderFieldByte (c : ascii) : bool :=
  is_digit c || is_lower c || is_upper c ||
  existsb (Ascii.eqb c)
    ["!"; "#"; "$"; "%"; "&"; "'"; "*"; "+"; "-"; "."; "^"; "_"; "`"; "|"; "~"]%char.

(** First letter and every letter after a dash in upper case, the
    others in lower case. *)
Fixpoint canonicalize (upper : bool) (s : string) : string :=
  match s with
  | EmptyString => EmptyString
  | String c s' =>
      let c' := if upper then to_upper_ascii c else to_lower_ascii c in
      String c' (canonicalize (Ascii.eqb c' "-") s')
  end.

(** A key holding a byte that is no token character (a space
    included) is returned as it is. *)
Definition CanonicalMIMEHeaderKey (s : string) : string :=
  if string_forallb validHeaderFieldByte s then canonicalize true s else s.

End Textproto.

(** ** Package net/http: headers and the response writer *)

Module Http.

Definition Get (h : Header) (key : string) : string :=
  match h !! Textproto.CanonicalMIMEHeaderKey key with
  | Some (v :: _) => v
  | _ => EmptyString
  end.

Definition Add (h : Header) (key value : string) : Header :=
  let k := Textproto.CanonicalMIMEHeaderKey key in
  <[k := default [] (h !! k) ++ [value]]> h.

Definition Set_ (h : Header) (key value : string) : Header :=
  <[Textproto.CanonicalMIMEHeaderKey key := [value]]> h.

Definition Del (h : Header) (key : string) : Header :=
  delete (Textproto.CanonicalMIMEHeaderKey key) h.

Definition StatusNotFound : Z := 404.
Definition StatusInternalServerError : Z := 500.
Definition StatusBadGateway : Z := 502.

(** The server side of one response.  [handlerHeader] is the map
    [w.Header()] returns, which the handler may change at any time.
    [WriteHeader] commits the status line and a copy of that map
    ([wireHeader]); later changes of [handlerHeader] do not reach the
    client.  [wireBody] collects what [Write] is given.  Left out: the
    headers the server adds on its own (Date, Content-Length, a sniffed
    Content-Type), the writes the server drops (a body after a status
    or a method that allows none, bytes beyond a committed
    Content-Length), and a client that stops reading. *)
Record ResponseWriter := {
  handlerHeader : Header;
  wroteHeader : bool;
  wireStatus : Z;
  wireHeader : Header;
  wireBody : bytes
}.

Definition newResponseWriter : ResponseWriter :=
  {| handlerHeader := ∅; wroteHeader := false; wireStatus := 0;
     wireHeader := ∅; wireBody := [] |}.

Definition withHeader (f : Header → Header) (w : ResponseWriter) : ResponseWriter :=
  {| handlerHeader := f (handlerHeader w); wroteHeader := wroteHeader w;
     wireStatus := wireStatus w; wireHeader := wireHeader w;
     wireBody := wireBody w |}.

Definition WriteHeader (code : Z) (w : ResponseWriter) : ResponseWriter :=
  if wroteHeader w then w
  else {| handlerHeader := handlerHeader w; wroteHeader := true;
          wireStatus := code; wireHeader := handlerHeader w;
          wireBody := wireBody w |}.

(** [Write] commits status 200 first when no status was written. *)
Definition Write (b : bytes) (w : ResponseWriter) : ResponseWriter :=
  let w := WriteHeader 200 w in
  {| handlerHeader := handlerHeader w; wroteHeader := wroteHeader w;
     wireStatus := wireStatus w; wireHeader := wireHeader w;
     wireBody := wireBody w ++ b |}.

(** [http.Error]: two headers, the status, and the message line.
    (Newer releases of Go also delete Content-Length and a few other
    headers from the map first; the response on the wire is the same
    wherever the handler calls it.) *)
Definition Error (msg : string) (code : Z) (w : ResponseWriter) : ResponseWriter :=
  let w := withHeader (λ h, Set_ h "Content-Type" "text/plain; charset=utf-8") w in
  let w := withHeader (λ h, Set_ h "X-Content-Type-Options" "nosniff") w in
  let w := WriteHeader code w in
  Write (bytes_of_string (msg +:+ LF)) w.

End Http.

(** ** Traces and the bounded history *)

Record Trace := {
  Id : string;
  Timestamp : Z;
  Method : string;
  URL : string;
  Status : string;
  Latency : Z;
  SessionId : string;
  RequestHeader : Header;
  RequestBody : string;
  ResponseBody : string
}.

Definition tracesMax : nat := 100.

(** The two statements both paths of the handler run on the global
    [traces]: append, then keep the last [tracesMax] entries. *)
Definition appendTrace (traces : list Trace) (trace : Trace) : list Trace :=
  let traces := traces ++ [trace] in
  if decide (tracesMax < length traces)
  then drop (length traces - tracesMax) traces
  else traces.

(** ** The Lua virtual machine (gopher-lua) *)

Module Lua.

(** Lua values as the Go side sees them.  A table has an array part
    (the values at keys 1, 2, ...), a part for string keys and a part
    for every other key.  Numbers are the integral ones, which are the
    only ones the Go side creates. *)
Inductive LValue : Type :=
| LNil
| LBool (b : bool)
| LNumber (n : Z)
| LString (s : string)
| LFunction (f : nat)
| LTab (t : LTable)
with LTable : Type :=
| Table (array : list LValue) (strdict : gmap string LValue)
        (dict : list (LValue * LValue)).

Definition MaxArrayIndex : Z := 67108864.

Definition NewTable : LTable := Table [] ∅ [].

Definition isNil (v : LValue) : bool :=
  match v with LNil => true | _ => false end.

Definition isNumberKey (key : Z) (kv : LValue * LValue) : bool :=
  match kv.1 with LNumber n => Z.eqb n key | _ => false end.

(** [RawSetH] at a number key: the entry is replaced, or removed when
    the value is nil. *)
Definition RawSetH_number (dict : list (LValue * LValue)) (key : Z) (value : LValue)
  : list (LValue * LValue) :=
  let others := List.filter (λ kv, negb (isNumberKey key kv)) dict in
  if isNil value then others else others ++ [(LNumber key, value)].

Definition RawSetInt (tb : LTable) (key : Z) (value : LValue) : LTable :=
  let '(Table array strdict dict) := tb in
  if ((key <? 1) || (MaxArrayIndex <=? key))%Z
  then Table array strdict (RawSetH_number dict key value)
  else
    let index := Z.to_nat (key - 1) in
    let alen := length array in
    if decide (index = alen) then Table (array ++ [value]) strdict dict
    else if decide (alen < index)
    then Table (array ++ replicate (index - alen) LNil ++ [value]) strdict dict
    else Table (<[index := value]> array) strdict dict.

Definition RawSetString (tb : LTable) (key : string) (value : LValue) : LTable :=
  let '(Table array strdict dict) := tb in
  if isNil value then Table array (delete key strdict) dict
  else Table array (<[key := value]> strdict) dict.

Fixpoint forEachArray {A} (i : Z) (array : list LValue)
    (cb : LValue → LValue → A → A) (acc : A) : A :=
  match array with
  | [] => acc
  | v :: array' =>
      forEachArray (i + 1) array' cb (if isNil v then acc else cb (LNumber (i + 1)) v acc)
  end.

(** [ForEach]: the array part in index order, then the string keys
    (a Go map) in the order of [range], then the other keys, which
    the model keeps in the order they are visited; nil values are
    skipped. *)
Definition ForEach {rt : Runtime} {A} (tb : LTable) (cb : LValue → LValue → A → A)
    (init : A) : A :=
  let '(Table array strdict dict) := tb in
  let acc := forEachArray 0 array cb init in
  let acc := range strdict (λ k v acc, if isNil v then acc else cb (LString k) v acc) acc in
  foldl (λ acc kv, if isNil kv.2 then acc else cb kv.1 kv.2 acc) acc dict.

(** One run of the interpreter.  [DoString] stands for a fresh state
    with the JSON module preloaded in which the chunk has been run (a
    chunk is taken to behave the same way each time it is run);
    [PCall] gives the values the callee returned, before they are
    adjusted to the number the caller asked for.  A call that never
    returns is not described.  [pointer_String] prints functions and
    tables (their address). *)
Class VM := {
  LState : Type;
  DoString : string → result LState;
  GetGlobal : LState → string → LValue;
  PCall : LState → LValue → list LValue → result (list LValue);
  pointer_String : LValue → string
}.

Definition String_ {lvm : VM} (v : LValue) : string :=
  match v with
  | LNil => "nil"
  | LBool b => if b then "true" else "false"
  | LNumber n => pretty n
  | LString s => s
  | _ => pointer_String v
  end.

Definition isFunction (v : LValue) : bool :=
  match v with LFunction _ => true | _ => false end.

(** The results of a call asking for [nret] values: padded with nil
    or cut. *)
Definition adjust (nret : nat) (results : list LValue) : list LValue :=
  take nret (results ++ replicate nret LNil).

End Lua.
Export Lua.

(** ** The Lua hook manager *)

Record LuaHookManager := {
  luaScript : string;
  enabled : bool;
  hasRequest : bool;
  hasResponse : bool
}.

Definition luaHookManager0 : LuaHookManager :=
  {| luaScript := ""; enabled := false; hasRequest := false; hasResponse := false |}.

(** The files [os.ReadFile] can see. *)
Definition FileSystem : Type := string → result bytes.

Section LuaHooks.
Context {rt : Runtime} {uni : Unicode} {lvm : VM}.

Definition LoadHookScript (fs : FileSystem) (scriptPath : string) (lhm : LuaHookManager)
  : option error * LuaHookManager :=
  match fs scriptPath with
  | Err err =>
      (Some ("failed to read Lua script file " +:+ scriptPath +:+ ": " +:+ err), lhm)
  | Ok data =>
      let script := string_of_bytes data in
      match DoString script with
      | Err err => (Some ("failed to load Lua script: " +:+ err), lhm)
      | Ok L =>
          let hasRequest' := isFunction (GetGlobal L "processRequest") in
          let hasResponse' := isFunction (GetGlobal L "processResponse") in
          if negb hasRequest' && negb hasResponse'
          then (Some "Lua script must define at least one of 'processRequest' or 'processResponse' functions", lhm)
          else (None, {| luaScript := script; enabled := true;
                         hasRequest := hasRequest'; hasResponse := hasResponse' |})
      end
  end.

Definition valueTable (values : list string) : LTable :=
  foldl (λ tb iv, RawSetInt tb (Z.of_nat iv.1 + 1) (LString iv.2)) NewTable
        (imap pair values).

Definition httpHeaderToLuaTable (headers : Header) : LTable :=
  range headers
    (λ name values table,
       RawSetString table (GoStrings.ToLower name) (LTab (valueTable values)))
    NewTable.

Definition luaTableToHttpHeader (table : LTable) : Header :=
  ForEach table
    (λ key value (headers : Header),
       let keyStr := String_ key in
       match value with
       | LTab valueTable =>
           let values := ForEach valueTable (λ _ v values, values ++ [String_ v]) [] in
           <[keyStr := values]> headers
       | _ => headers
       end)
    ∅.

Definition ExecuteRequestHook (lhm : LuaHookManager) (body : bytes) (headers : Header)
  : bytes * Header * option error :=
  if negb (enabled lhm) || negb (hasRequest lhm) || String.eqb (luaScript lhm) ""
  then (body, headers, None)
  else
    match DoString (luaScript lhm) with
    | Err _ => (body, headers, None)
    | Ok L =>
        match PCall L (GetGlobal L "processRequest")
                      [LString (string_of_bytes body); LTab (httpHeaderToLuaTable headers)] with
        | Err _ => (body, headers, None)
        | Ok results =>
            let results := adjust 2 results in
            let modifiedBody := nth 0 results LNil in
            let modifiedHeaders := nth 1 results LNil in
            let resultBody :=
              match modifiedBody with
              | LString s => bytes_of_string s
              | _ => body
              end in
            let resultHeaders :=
              match modifiedHeaders with
              | LTab t => luaTableToHttpHeader t
              | _ => headers
              end in
            (resultBody, resultHeaders, None)
        end
    end.

Definition ExecuteResponseHook (lhm : LuaHookManager) (body : bytes) (headers : Header)
  : bytes * Header * option error :=
  if negb (enabled lhm) || negb (hasResponse lhm) || String.eqb (luaScript lhm) ""
  then (body, headers, None)
  else
    match DoString (luaScript lhm) with
    | Err _ => (body, headers, None)
    | Ok L =>
        match PCall L (GetGlobal L "processResponse")
                      [LString (string_of_bytes body); LTab (httpHeaderToLuaTable headers)] with
        | Err _ => (body, headers, None)
        | Ok results =>
            let results := adjust 2 results in
            let modifiedBody := nth 0 results LNil in
            let modifiedHeaders := nth 1 results LNil in
            let resultBody :=
              match modifiedBody with
              | LString s => bytes_of_string s
              | _ => body
              end in
            let resultHeaders :=
              match modifiedHeaders with
              | LTab t => luaTableToHttpHeader t
              | _ => headers
              end in
            (resultBody, resultHeaders, None)
        end
    end.

(** What [luaTableToHttpHeader] keeps of one entry of a table. *)
Definition headerValues (v : LValue) : option (list string) :=
  match v with
  | LTab valueTable =>
      Some (ForEach valueTable (λ _ v values, values ++ [String_ v]) [])
  | _ => None
  end.

End LuaHooks.

Definition isTable (v : LValue) : Prop := ∃ t, v = LTab t.

(** ** The content codec *)

(** compress/gzip and brotli.  [gzip_NewReader] reads the gzip header;
    the two [ReadAll] are [io.ReadAll] over the decompressing reader,
    which gives what was read and the error that stopped it, if any. *)
Class Compression := {
  GzipReader : Type;
  gzip_NewReader : bytes → result GzipReader;
  gzip_ReadAll : GzipReader → bytes * option error;
  brotli_ReadAll : bytes → bytes * option error
}.

Definition decompressBody {comp : Compression} (body : bytes) (encoding : string)
  : bytes * option error :=
  if String.eqb encoding "gzip" then
    match gzip_NewReader body with
    | Err err => (body, Some err)
    | Ok reader =>
        match gzip_ReadAll reader with
        | (_, Some err) => (body, Some err)
        | (decompressed, None) => (decompressed, None)
        end
    end
  else if String.eqb encoding "br" then
    match brotli_ReadAll body with
    | (_, Some err) => (body, Some err)
    | (decompressed, None) => (decompressed, None)
    end
  else (body, None).

(** ** encoding/json *)

Module Json.

(** What [json.Unmarshal] stores in an [interface{}]: nil, bool,
    float64, string, [[]interface{}] and [map[string]interface{}]. *)
Inductive Value (float64 : Type) : Type :=
| Null
| Bool (b : bool)
| Number (x : float64)
| Str (s : string)
| Array (l : list (Value float64))
| Object (m : gmap string (Value float64)).
Arguments Null {float64}.
Arguments Bool {float64} b.
Arguments Number {float64} x.
Arguments Str {float64} s.
Arguments Array {float64} l.
Arguments Object {float64} m.

(** [Unmarshal] into a [map[string]interface{}] and [Marshal]. *)
Class Codec := {
  float64 : Type;
  Unmarshal : bytes → result (gmap string (Value float64));
  Marshal : Value float64 → result bytes
}.

End Json.

(** ** The built-in hooks *)

(** A hook is a Go function value; it may read the hook manager. *)
Definition RequestHook : Type :=
  LuaHookManager → bytes → Header → bytes * Header * option error.
Definition ResponseHook : Type :=
  LuaHookManager → bytes → Header → bytes * Header * option error.

Definition defaultHook : LuaHookManager → bytes → Header → bytes * Header * option error :=
  λ _ body headers, (body, headers, None).

Abbreviation JValue := (Json.Value Json.float64).
Abbreviation JMap := (gmap string (Json.Value Json.float64)).

Section PromptHook.
Context {rt : Runtime} {uni : Unicode} {lvm : VM} {codec : Json.Codec}.


(** The hook logs [messagesLog] and returns the messages as they are. *)
Definition messagesHook (messages : list JMap) : list JMap * option error :=
  (messages, None).

(** [msg.(map[string]interface{})] for every message, or nothing at
    the first one that is no object. *)
Fixpoint messagesArrayOf (messages : list JValue) : option (list JMap) :=
  match messages with
  | [] => Some []
  | Json.Object msgMap :: rest => cons msgMap <$> messagesArrayOf rest
  | _ :: _ => None
  end.

Definition promptHook : RequestHook := λ lhm body headers,
  match Json.Unmarshal body with
  | Err _ => (body, headers, None)
  | Ok requestBody =>
      match requestBody !! "messages" with
      | Some (Json.Array messages) =>
          match messagesArrayOf messages with
          | None => (body, headers, None)
          | Some messagesArray =>
              match messagesHook messagesArray with
              | (_, Some err) => (body, headers, Some err)
              | (modifiedMessages, None) =>
                  let requestBody :=
                    <["messages" := Json.Array (Json.Object <$> modifiedMessages)]> requestBody in
                  match Json.Marshal (Json.Object requestBody) with
                  | Err err => (body, headers, Some err)
                  | Ok modifiedBody => ExecuteRequestHook lhm modifiedBody headers
                  end
              end
          end
      | _ => ExecuteRequestHook lhm body headers
      end
  end.

End PromptHook.

(** ** The forwarding handler *)

(** An inbound request.  On the server side [r.Body] is never nil;
    [reqBody] is what [io.ReadAll] reads of it, [reqBodyErr] the error
    it ends with, if any. *)
Record Request := {
  reqMethod : string;
  reqPath : string;
  reqRawQuery : string;
  reqHeader : Header;
  reqBody : bytes;
  reqBodyErr : option error
}.

(** The request handed to [client.Do]. *)
Record UpstreamRequest := {
  outMethod : string;
  outURL : string;
  outHeader : Header;
  outBody : bytes
}.

(** An upstream response; [respBody] is what can be read of the body
    before it ends or fails with [respBodyErr]. *)
Record Response := {
  respStatus : string;
  respStatusCode : Z;
  respHeader : Header;
  respBody : bytes;
  respBodyErr : option error
}.

(** net/url and the checks of [http.NewRequest]. *)
Class NetHTTP := {
  URL_String : string → string → string → string → string;
  NewRequest_error : string → string → option error
}.

(** What one exchange meets outside the program: the upstream server,
    the clock and the random source of [generateTraceID]. *)
Record World := {
  upstream : UpstreamRequest → result Response;
  traceID : string;
  now : Z;
  elapsed : Z
}.

(** The package-level variables. *)
Record Globals := {
  requestHook : RequestHook;
  responseHook : ResponseHook;
  luaHookManager : LuaHookManager;
  traces : list Trace
}.

Definition SetRequestHook (hook : RequestHook) (g : Globals) : Globals :=
  {| requestHook := hook; responseHook := responseHook g;
     luaHookManager := luaHookManager g; traces := traces g |}.

Definition SetResponseHook (hook : ResponseHook) (g : Globals) : Globals :=
  {| requestHook := requestHook g; responseHook := hook;
     luaHookManager := luaHookManager g; traces := traces g |}.

(** The calls a handler makes, in order. *)
Inductive Call : Type :=
| CallRequestHook (body : bytes) (headers : Header)
| CallClientDo (req : UpstreamRequest)
| CallDecompressBody (body : bytes) (encoding : string)
| CallResponseHook (body : bytes) (headers : Header)
| CallExecuteResponseHook (body : bytes) (headers : Header).

(** What a handler leaves behind: the response as the client receives
    it, the calls made, the global [traces] and the trace sent to the
    hub's broadcast channel. *)
Record Outcome := {
  client : Http.ResponseWriter;
  calls : list Call;
  history : list Trace;
  broadcast : option Trace
}.

(** The requests a handler passed to [client.Do]. *)
Definition forwarded (o : Outcome) : list UpstreamRequest :=
  omap (λ c, match c with CallClientDo req => Some req | _ => None end) (calls o).

(** Whether a call runs a response hook or the decompressor. *)
Definition touchesResponse (c : Call) : bool :=
  match c with
  | CallDecompressBody _ _ | CallResponseHook _ _ | CallExecuteResponseHook _ _ => true
  | _ => false
  end.

Definition streamingPlaceholder (bytesWritten : nat) : string :=
  "[STREAMING RESPONSE - " +:+ pretty bytesWritten +:+ " bytes]".

Section Forwarder.
Context {rt : Runtime} {uni : Unicode} {lvm : VM} {codec : Json.Codec}
        {comp : Compression} {net : NetHTTP}.

(** Every value of every header is added under its canonical name. *)
Definition addAll (src dst : Header) : Header :=
  range src (λ name values dst, foldl (λ dst value, Http.Add dst name value) dst values)
        dst.

(** The headers of the upstream request: those of [r.Header], with
    identity in place of every Accept-Encoding value. *)
Definition forwardedHeader (rHeader : Header) : Header :=
  let reqHeader :=
    range rHeader
      (λ name values reqHeader,
         foldl (λ reqHeader value,
                  if String.eqb name "Accept-Encoding"
                  then Http.Set_ reqHeader name "identity"
                  else Http.Add reqHeader name value)
               reqHeader values)
      ∅ in
  if String.eqb (Http.Get reqHeader "Accept-Encoding") ""
  then Http.Set_ reqHeader "Accept-Encoding" "identity"
  else reqHeader.

Definition handler (g : Globals) (env : World) (r : Request) : Outcome :=
  let w := Http.newResponseWriter in
  if negb (GoStrings.HasPrefix (reqPath r) "/v1/") then
    {| client := Http.Error "Only /v1/ endpoints are supported" Http.StatusNotFound w;
       calls := []; history := traces g; broadcast := None |}
  else
  let targetURL := URL_String "https" "api.openai.com" (reqPath r) (reqRawQuery r) in
  match reqBodyErr r with
  | Some _ =>
    {| client := Http.Error "Failed to read request body" Http.StatusInternalServerError w;
       calls := []; history := traces g; broadcast := None |}
  | None =>
  let bodyBytes := reqBody r in
  let calls1 := [CallRequestHook bodyBytes (reqHeader r)] in
  match requestHook g (luaHookManager g) bodyBytes (reqHeader r) with
  | (_, _, Some _) =>
    {| client := Http.Error "Request hook error" Http.StatusInternalServerError w;
       calls := calls1; history := traces g; broadcast := None |}
  | (modifiedBody, modifiedHeaders, None) =>
  let bodyBytes := modifiedBody in
  let rHeader := modifiedHeaders in
  match NewRequest_error (reqMethod r) targetURL with
  | Some _ =>
    {| client := Http.Error "Failed to create request" Http.StatusInternalServerError w;
       calls := calls1; history := traces g; broadcast := None |}
  | None =>
  let req := {| outMethod := reqMethod r; outURL := targetURL;
                outHeader := forwardedHeader rHeader; outBody := bodyBytes |} in
  let calls2 := calls1 ++ [CallClientDo req] in
  match upstream env req with
  | Err _ =>
    {| client := Http.Error "Failed to forward request" Http.StatusBadGateway w;
       calls := calls2; history := traces g; broadcast := None |}
  | Ok resp =>
  let latency := elapsed env in
  let w := Http.withHeader (addAll (respHeader resp)) w in
  let w := Http.WriteHeader (respStatusCode resp) w in
  let contentType := Http.Get (respHeader resp) "Content-Type" in
  let isStreaming := GoStrings.Contains contentType "text/event-stream"
                     || GoStrings.Contains contentType "text/plain" in
  if isStreaming then
    let w := Http.Write (respBody resp) w in
    let bytesWritten := length (respBody resp) in
    match respBodyErr resp with
    | Some _ => {| client := w; calls := calls2; history := traces g; broadcast := None |}
    | None =>
      let sessionId := Http.Get (respHeader resp) "X-Session-Id" in
      let trace := {| Id := traceID env; Timestamp := now env; Method := reqMethod r;
                      URL := targetURL; Status := respStatus resp; Latency := latency;
                      SessionId := sessionId; RequestHeader := rHeader;
                      RequestBody := string_of_bytes bodyBytes;
                      ResponseBody := streamingPlaceholder bytesWritten |} in
      {| client := w; calls := calls2; history := appendTrace (traces g) trace;
         broadcast := Some trace |}
    end
  else
    match respBodyErr resp with
    | Some _ =>
      {| client := Http.Error "Failed to read response" Http.StatusInternalServerError w;
         calls := calls2; history := traces g; broadcast := None |}
    | None =>
    let respBody0 := respBody resp in
    let contentEncoding := Http.Get (respHeader resp) "Content-Encoding" in
    let '(respBody1, w, calls3) :=
      if String.eqb contentEncoding "" then (respBody0, w, calls2)
      else
        match decompressBody respBody0 contentEncoding with
        | (decompressed, None) =>
            (decompressed, Http.withHeader (λ h, Http.Del h "Content-Encoding") w,
             calls2 ++ [CallDecompressBody respBody0 contentEncoding])
        | (_, Some _) =>
            (respBody0, w, calls2 ++ [CallDecompressBody respBody0 contentEncoding])
        end in
    let calls4 := calls3 ++ [CallResponseHook respBody1 (respHeader resp)] in
    match responseHook g (luaHookManager g) respBody1 (respHeader resp) with
    | (_, _, Some _) =>
      {| client := w; calls := calls4; history := traces g; broadcast := None |}
    | (modifiedRespBody, modifiedRespHeaders, None) =>
    let respBody2 := modifiedRespBody in
    let calls5 := calls4 ++ [CallExecuteResponseHook respBody2 modifiedRespHeaders] in
    match ExecuteResponseHook (luaHookManager g) respBody2 modifiedRespHeaders with
    | (_, _, Some _) =>
      {| client := w; calls := calls5; history := traces g; broadcast := None |}
    | (modifiedRespBody, modifiedRespHeaders, None) =>
    let respBody3 := modifiedRespBody in
    let w := Http.withHeader
               (λ h, range modifiedRespHeaders
                       (λ name values h,
                          foldl (λ h value, Http.Add h name value) (Http.Del h name) values)
                       h) w in
    let w := Http.Write respBody3 w in
    let responseBodyStr := string_of_bytes respBody3 in
    let sessionId := Http.Get (respHeader resp) "X-Session-Id" in
    let trace := {| Id := traceID env; Timestamp := now env; Method := reqMethod r;
                    URL := targetURL; Status := respStatus resp; Latency := latency;
                    SessionId := sessionId; RequestHeader := rHeader;
                    RequestBody := string_of_bytes bodyBytes;
                    ResponseBody := responseBodyStr |} in
    {| client := w; calls := calls5; history := appendTrace (traces g) trace;
       broadcast := Some trace |}
    end end end
  end end end end.

(** The upstream request the handler builds from the result of the
    request hook. *)
Definition upstreamRequest (r : Request) (body : bytes) (headers : Header) : UpstreamRequest :=
  {| outMethod := reqMethod r;
     outURL := URL_String "https" "api.openai.com" (reqPath r) (reqRawQuery r);
     outHeader := forwardedHeader headers; outBody := body |}.

(** [startOpenAIForwarder] installs [promptHook] before it serves. *)
Definition startOpenAIForwarder (g : Globals) : Globals := SetRequestHook promptHook g.

End Forwarder.

(** ** Requests served one after the other *)

(** The package-level variables a handler leaves to the next one: the
    hooks and the hook manager as they were, the history as the
    handler left it. *)
Definition leaves (g : Globals) (o : Outcome) : Globals :=
  {| requestHook := requestHook g; responseHook := responseHook g;
     luaHookManager := luaHookManager g; traces := history o |}.

Section Server.
Context {rt : Runtime} {uni : Unicode} {lvm : VM} {codec : Json.Codec}
        {comp : Compression} {net : NetHTTP}.

(** The handler run on each request in turn, every request in the world
    it meets; the outcomes are collected in order. *)
Definition serveAll (g : Globals) (exchanges : list (World * Request))
  : Globals * list Outcome :=
  foldl (λ (acc : Globals * list Outcome) (x : World * Request),
           let o := handler acc.1 x.1 x.2 in (leaves acc.1 o, acc.2 ++ [o]))
        (g, []) exchanges.

End Server.

(** ** [main]: the script given on the command line *)

(** The script named by [-hook] is loaded when the flag is not empty; a
    failure is logged and the proxy starts all the same. *)
Definition mainLoadsHook {lvm : VM} (fs : FileSystem) (luaFile : string)
    (lhm : LuaHookManager) : LuaHookManager :=
  if String.eqb luaFile "" then lhm else (LoadHookScript fs luaFile lhm).2.

(** ** Trace identifiers *)

Definition hexDigit (n : N) : ascii :=
  default "0"%char (String.get (N.to_nat n) "0123456789abcdef").

(** The verb [%x] on a byte slice: two lower-case hexadecimal digits
    for every byte, the high one first. *)
Definition Sprintf_x (b : bytes) : string :=
  foldr (λ x s, String (hexDigit (Byte.to_N x / 16))
                  (String (hexDigit (Byte.to_N x mod 16)) s))
        EmptyString b.

(** [generateTraceID]: a slice of eight zero bytes, over which
    [rand.Read] writes what the random source gives, printed with
    [%x]. *)
Definition generateTraceID (random : bytes) : string :=
  let b := take 8 (random ++ replicate 8 x00) in
  Sprintf_x b.

(** Reading hexadecimal digits back, to state that [%x] loses nothing. *)
Definition hexValue (c : ascii) : option N :=
  let n := N_of_ascii c in
  if is_digit c then Some (n - 48)%N
  else if in_range 97 102 c then Some (n - 87)%N
  else None.

Fixpoint parseHex (s : string) : option bytes :=
  match s with
  | EmptyString => Some []
  | String hi (String lo rest) =>
      hi' ← hexValue hi; lo' ← hexValue lo;
      x ← Byte.of_N (hi' * 16 + lo');
      cons x <$> parseHex rest
  | String _ EmptyString => None
  end.

(** ** The first version of the proxy

    main.go holds the program twice: first as it was before the Lua
    hooks and brotli were added, then as it is now.  The functions of
    the first version that differ from the later ones. *)

Module V1.
Section Original.
Context {rt : Runtime} {uni : Unicode} {lvm : VM} {codec : Json.Codec}
        {comp : Compression} {net : NetHTTP}.

(** gzip only. *)
Definition decompressBody (body : bytes) (encoding : string) : bytes * option error :=
  if String.eqb encoding "gzip" then
    match gzip_NewReader body with
    | Err err => (body, Some err)
    | Ok reader =>
        match gzip_ReadAll reader with
        | (_, Some err) => (body, Some err)
        | (decompressed, None) => (decompressed, None)
        end
    end
  else (body, None).

(** The prompt hook returns what it built; there is no hook manager. *)
Definition promptHook : RequestHook := λ _ body headers,
  match Json.Unmarshal body with
  | Err _ => (body, headers, None)
  | Ok requestBody =>
      match requestBody !! "messages" with
      | Some (Json.Array messages) =>
          match messagesArrayOf messages with
          | None => (body, headers, None)
          | Some messagesArray =>
              match messagesHook messagesArray with
              | (_, Some err) => (body, headers, Some err)
              | (modifiedMessages, None) =>
                  let requestBody :=
                    <["messages" := Json.Array (Json.Object <$> modifiedMessages)]> requestBody in
                  match Json.Marshal (Json.Object requestBody) with
                  | Err err => (body, headers, Some err)
                  | Ok modifiedBody => (modifiedBody, headers, None)
                  end
              end
          end
      | _ => (body, headers, None)
      end
  end.

(** The handler: that of the later version without the call of the Lua
    response hook, and with the decompressor above. *)
Definition handler (g : Globals) (env : World) (r : Request) : Outcome :=
  let w := Http.newResponseWriter in
  if negb (GoStrings.HasPrefix (reqPath r) "/v1/") then
    {| client := Http.Error "Only /v1/ endpoints are supported" Http.StatusNotFound w;
       calls := []; history := traces g; broadcast := None |}
  else
  let targetURL := URL_String "https" "api.openai.com" (reqPath r) (reqRawQuery r) in
  match reqBodyErr r with
  | Some _ =>
    {| client := Http.Error "Failed to read request body" Http.StatusInternalServerError w;
       calls := []; history := traces g; broadcast := None |}
  | None =>
  let bodyBytes := reqBody r in
  let calls1 := [CallRequestHook bodyBytes (reqHeader r)] in
  match requestHook g (luaHookManager g) bodyBytes (reqHeader r) with
  | (_, _, Some _) =>
    {| client := Http.Error "Request hook error" Http.StatusInternalServerError w;
       calls := calls1; history := traces g; broadcast := None |}
  | (modifiedBody, modifiedHeaders, None) =>
  let bodyBytes := modifiedBody in
  let rHeader := modifiedHeaders in
  match NewRequest_error (reqMethod r) targetURL with
  | Some _ =>
    {| client := Http.Error "Failed to create request" Http.StatusInternalServerError w;
       calls := calls1; history := traces g; broadcast := None |}
  | None =>
  let req := {| outMethod := reqMethod r; outURL := targetURL;
                outHeader := forwardedHeader rHeader; outBody := bodyBytes |} in
  let calls2 := calls1 ++ [CallClientDo req] in
  match upstream env req with
  | Err _ =>
    {| client := Http.Error "Failed to forward request" Http.StatusBadGateway w;
       calls := calls2; history := traces g; broadcast := None |}
  | Ok resp =>
  let latency := elapsed env in
  let w := Http.withHeader (addAll (respHeader resp)) w in
  let w := Http.WriteHeader (respStatusCode resp) w in
  let contentType := Http.Get (respHeader resp) "Content-Type" in
  let isStreaming := GoStrings.Contains contentType "text/event-stream"
                     || GoStrings.Contains contentType "text/plain" in
  if isStreaming then
    let w := Http.Write (respBody resp) w in
    let bytesWritten := length (respBody resp) in
    match respBodyErr resp with
    | Some _ => {| client := w; calls := calls2; history := traces g; broadcast := None |}
    | None =>
      let sessionId := Http.Get (respHeader resp) "X-Session-Id" in
      let trace := {| Id := traceID env; Timestamp := now env; Method := reqMethod r;
                      URL := targetURL; Status := respStatus resp; Latency := latency;
                      SessionId := sessionId; RequestHeader := rHeader;
                      RequestBody := string_of_bytes bodyBytes;
                      ResponseBody := streamingPlaceholder bytesWritten |} in
      {| client := w; calls := calls2; history := appendTrace (traces g) trace;
         broadcast := Some trace |}
    end
  else
    match respBodyErr resp with
    | Some _ =>
      {| client := Http.Error "Failed to read response" Http.StatusInternalServerError w;
         calls := calls2; history := traces g; broadcast := None |}
    | None =>
    let respBody0 := respBody resp in
    let contentEncoding := Http.Get (respHeader resp) "Content-Encoding" in
    let '(respBody1, w, calls3) :=
      if String.eqb contentEncoding "" then (respBody0, w, calls2)
      else
        match decompressBody respBody0 contentEncoding with
        | (decompressed, None) =>
            (decompressed, Http.withHeader (λ h, Http.Del h "Content-Encoding") w,
             calls2 ++ [CallDecompressBody respBody0 contentEncoding])
        | (_, Some _) =>
            (respBody0, w, calls2 ++ [CallDecompressBody respBody0 contentEncoding])
        end in
    let calls4 := calls3 ++ [CallResponseHook respBody1 (respHeader resp)] in
    match responseHook g (luaHookManager g) respBody1 (respHeader resp) with
    | (_, _, Some _) =>
      {| client := w; calls := calls4; history := traces g; broadcast := None |}
    | (modifiedRespBody, modifiedRespHeaders, None) =>
    let respBody2 := modifiedRespBody in
    let w := Http.withHeader
               (λ h, range modifiedRespHeaders
                       (λ name values h,
                          foldl (λ h value, Http.Add h name value) (Http.Del h name) values)
                       h) w in
    let w := Http.Write respBody2 w in
    let responseBodyStr := string_of_bytes respBody2 in
    let sessionId := Http.Get (respHeader resp) "X-Session-Id" in
    let trace := {| Id := traceID env; Timestamp := now env; Method := reqMethod r;
                    URL := targetURL; Status := respStatus resp; Latency := latency;
                    SessionId := sessionId; RequestHeader := rHeader;
                    RequestBody := string_of_bytes bodyBytes;
                    ResponseBody := responseBodyStr |} in
    {| client := w; calls := calls4; history := appendTrace (traces g) trace;
       broadcast := Some trace |}
    end end
  end end end end.

Definition startOpenAIForwarder (g : Globals) : Globals := SetRequestHook promptHook g.

End Original.
End V1.

(** What an exchange leaves outside the program's log: the response,
    the history, the broadcast trace and the requests sent upstream. *)
Definition observable (o : Outcome) :=
  (client o, history o, broadcast o, forwarded o).

(** ** The hub of the trace viewers *)

Module Hub.

(** A connection is known by its identity, as the [*websocket.Conn]
    that is the key of [h.clients]. *)
Definition Conn : Type := nat.

(** The order in which [range] visits the clients. *)
Class ClientOrder := {
  rangeClients : gset Conn → list Conn;
  rangeClients_perm : ∀ X, rangeClients X ≡ₚ elements X
}.

(** The peers.  [accepts c n] tells whether the write that follows [n]
    delivered frames on connection [c] succeeds; a write on a closed
    connection fails whatever the peer does. *)
Definition Peers : Type := Conn → nat → bool.

(** [clients]: the keys of [h.clients] (the only value stored is
    [true]); [closed]: the connections [Close] was called on; [sent]:
    the frames written on each connection, oldest first. *)
Record State := {
  clients : gset Conn;
  closed : gset Conn;
  sent : gmap Conn (list Trace)
}.

Definition newHub : State := {| clients := ∅; closed := ∅; sent := ∅ |}.

Definition inbox (h : State) (c : Conn) : list Trace := default [] (sent h !! c).

(** What the hub holds about one connection: whether it is a client,
    whether it was closed, and the frames written on it. *)
Definition view (h : State) (c : Conn) : bool * bool * list Trace :=
  (bool_decide (c ∈ clients h), bool_decide (c ∈ closed h), inbox h c).

Definition WriteJSON (peers : Peers) (client : Conn) (trace : Trace) (h : State)
  : State * bool :=
  if bool_decide (client ∉ closed h) && peers client (length (inbox h client))
  then ({| clients := clients h; closed := closed h;
           sent := <[client := inbox h client ++ [trace]]> (sent h) |}, true)
  else (h, false).

Definition Close (client : Conn) (h : State) : State :=
  {| clients := clients h; closed := {[client]} ∪ closed h; sent := sent h |}.

(** [delete(h.clients, client)]. *)
Definition deleteClient (client : Conn) (h : State) : State :=
  {| clients := clients h ∖ {[client]}; closed := closed h; sent := sent h |}.

(** The body of both sending loops: write, and on an error close the
    connection and forget it.  The loop goes on in either case. *)
Definition send (peers : Peers) (trace : Trace) (h : State) (client : Conn) : State :=
  match WriteJSON peers client trace h with
  | (h, true) => h
  | (h, false) => deleteClient client (Close client h)
  end.

(** [case client := <-h.register]; [traces] is the history at that
    moment. *)
Definition register (peers : Peers) (traces : list Trace) (client : Conn) (h : State)
  : State :=
  let h := {| clients := {[client]} ∪ clients h; closed := closed h; sent := sent h |} in
  foldl (λ h trace, send peers trace h client) h traces.

(** [case client := <-h.unregister]. *)
Definition unregister (client : Conn) (h : State) : State :=
  if bool_decide (client ∈ clients h) then Close client (deleteClient client h) else h.

(** [case trace := <-h.broadcast].  A client deleted during the loop
    is the one being visited, so the clients visited are those of the
    start. *)
Definition broadcast {ord : ClientOrder} (peers : Peers) (trace : Trace) (h : State)
  : State :=
  foldl (send peers trace) h (rangeClients (clients h)).

(** What the hub's loop receives on its channels. *)
Inductive Event : Type :=
| Register (client : Conn) (traces : list Trace)
| Unregister (client : Conn)
| Broadcast (trace : Trace).

Definition step {ord : ClientOrder} (peers : Peers) (h : State) (ev : Event) : State :=
  match ev with
  | Register client traces => register peers traces client h
  | Unregister client => unregister client h
  | Broadcast trace => broadcast peers trace h
  end.

(** [run] on the events received so far. *)
Definition run {ord : ClientOrder} (peers : Peers) (events : list Event) (h : State)
  : State :=
  foldl (step peers) h events.

End Hub.

(** ** The trace viewer (web/src/App.js) *)

Module Viewer.
Section Viewer.

(** A parsed trace, and the test [trace.timestamp && trace.url] as a
    condition. *)
Context {T : Type} (valid : T → bool).

(** [fetchTraces] on a successful answer of [/traces]. *)
Definition fetchTraces (data : list T) : list T :=
  filter (λ trace, Is_true (valid trace)) data.

(** The update [ws.onmessage] makes for a message that parses to
    [newTrace]: newest first, at most a hundred. *)
Definition onmessage (prevTraces : list T) (newTrace : T) : list T :=
  if valid newTrace
  then take 100 (filter (λ trace, Is_true (valid trace)) (newTrace :: prevTraces))
  else prevTraces.

End Viewer.
End Viewer.

(** ** Implementations used to run the program on concrete inputs *)

Module Concrete.

(** One order of [range]: that of [map_to_list]. *)
Definition runtime : Runtime :=
  {| rangeOrder := λ A m, map_to_list m; rangeOrder_perm := λ A m, reflexivity _ |}.

(** Text in the examples is ASCII, where [strings.ToLower] does not
    consult the Unicode tables. *)
Definition unicode : Unicode := {| unicode_ToLower := λ s, s |}.

(** *** A Lua machine for a handful of scripts

    The machine runs the scripts listed here as gopher-lua runs them
    and takes every other text for a chunk that does not compile. *)

(** The script of the program's own [sampleHookLuaScript]. *)
Definition sampleHookLuaScript : string :=
  LF +:+ "function processRequest(body, headers)" +:+ LF +:+
  "    -- Modify the request body and headers here" +:+ LF +:+
  "    return body, headers" +:+ LF +:+
  "end" +:+ LF +:+ LF +:+
  "function processResponse(body, headers)" +:+ LF +:+
  "    -- Modify the response body and headers here" +:+ LF +:+
  "    return body, headers" +:+ LF +:+
  "end" +:+ LF.

Definition xTestScript : string :=
  "function processResponse(body, headers) headers['x-test'] = {'1'} return body, headers end".

Definition oneValueScript : string :=
  "function processRequest(body, headers) return 'changed' end".

Definition numberBodyScript : string :=
  "function processRequest(body, headers) return 42, {} end".

Definition raisingScript : string :=
  "function processRequest(body, headers) error('boom') end " +:+
  "function processResponse(body, headers) error('boom') end".

Definition rewriteScript : string :=
  "function processRequest(body, headers) return 'rewritten', {['x-hook'] = {'on'}} end".

Definition noEntryScript : string := "answer = 42".

Inductive Script : Type :=
| Sample | XTest | OneValue | NumberBody | Raising | Rewrite | NoEntry.

Definition compile (src : string) : result Script :=
  if String.eqb src sampleHookLuaScript then Ok Sample
  else if String.eqb src xTestScript then Ok XTest
  else if String.eqb src oneValueScript then Ok OneValue
  else if String.eqb src numberBodyScript then Ok NumberBody
  else if String.eqb src raisingScript then Ok Raising
  else if String.eqb src rewriteScript then Ok Rewrite
  else if String.eqb src noEntryScript then Ok NoEntry
  else Err "syntax error".

(** Closures are numbered: the script's [processRequest] is 2n, its
    [processResponse] 2n+1. *)
Definition scriptIndex (sc : Script) : nat :=
  match sc with
  | Sample => 0 | XTest => 1 | OneValue => 2 | NumberBody => 3
  | Raising => 4 | Rewrite => 5 | NoEntry => 6
  end.

Definition getGlobal (sc : Script) (name : string) : LValue :=
  let req := LFunction (2 * scriptIndex sc) in
  let resp := LFunction (2 * scriptIndex sc + 1) in
  let isReq := String.eqb name "processRequest" in
  let isResp := String.eqb name "processResponse" in
  match sc with
  | Sample | Raising => if isReq then req else if isResp then resp else LNil
  | XTest => if isResp then resp else LNil
  | OneValue | NumberBody | Rewrite => if isReq then req else LNil
  | NoEntry => if String.eqb name "answer" then LNumber 42 else LNil
  end.

Definition pcall (sc : Script) (f : LValue) (args : list LValue) : result (list LValue) :=
  match f with
  | LFunction 0 | LFunction 1 => Ok (take 2 (args ++ [LNil; LNil]))
  | LFunction 3 =>
      match args with
      | [body; LTab headers] =>
          Ok [body; LTab (RawSetString headers "x-test"
                            (LTab (RawSetInt NewTable 1 (LString "1"))))]
      | _ => Err "attempt to index a non-table object"
      end
  | LFunction 4 => Ok [LString "changed"]
  | LFunction 6 => Ok [LNumber 42; LTab NewTable]
  | LFunction 8 | LFunction 9 => Err "boom"
  | LFunction 10 =>
      Ok [LString "rewritten";
          LTab (RawSetString NewTable "x-hook" (LTab (RawSetInt NewTable 1 (LString "on"))))]
  | _ => Err "attempt to call a non-function object"
  end.

Definition vm : VM :=
  {| LState := Script; DoString := compile; GetGlobal := getGlobal; PCall := pcall;
     pointer_String := λ _, "0xc000010000" |}.

(** The script files on disk. *)
Definition fileSystem : FileSystem := λ path,
  if String.eqb path "sample.lua" then Ok (bytes_of_string sampleHookLuaScript)
  else if String.eqb path "x_test.lua" then Ok (bytes_of_string xTestScript)
  else if String.eqb path "one_value.lua" then Ok (bytes_of_string oneValueScript)
  else if String.eqb path "number_body.lua" then Ok (bytes_of_string numberBodyScript)
  else if String.eqb path "raising.lua" then Ok (bytes_of_string raisingScript)
  else if String.eqb path "rewrite.lua" then Ok (bytes_of_string rewriteScript)
  else if String.eqb path "no_entry.lua" then Ok (bytes_of_string noEntryScript)
  else if String.eqb path "broken.lua" then Ok (bytes_of_string "function (")
  else Err "open: no such file or directory".

(** The manager after [main] has loaded the script at [path]. *)
Definition loaded (path : string) : LuaHookManager :=
  (LoadHookScript (lvm := vm) fileSystem path luaHookManager0).2.

(** Headers with lower-case names: one value, repeated values, none. *)
Definition lowerHeaders : Header :=
  {[ "content-type" := ["application/json"];
     "set-cookie" := ["a=1"; "b=2"; "a=1"];
     "x-empty" := [] ]}.

(** *** Traces to fill the history with *)
Definition traceNo (i : nat) : Trace :=
  {| Id := pretty i; Timestamp := Z.of_nat i; Method := "POST";
     URL := "https://api.openai.com/v1/chat/completions"; Status := "200 OK";
     Latency := 0; SessionId := ""; RequestHeader := ∅; RequestBody := "";
     ResponseBody := "" |}.

Definition tracesUpTo (n : nat) : list Trace := traceNo <$> seq 0 n.

(** *** A codec that knows the gzip header and nothing else

    Input that does not start with the gzip magic number is refused
    as compress/gzip refuses it; no stream is ever decoded. *)
Definition compression : Compression :=
  {| GzipReader := bytes;
     gzip_NewReader := λ b,
       match b with
       | x1f :: x8b :: _ => Ok b
       | [] => Err "EOF"
       | _ => Err "gzip: invalid header"
       end;
     gzip_ReadAll := λ _, ([], Some "unexpected EOF");
     brotli_ReadAll := λ _, ([], Some "brotli: unexpected end of input") |}.

(** *** URLs whose path needs no escaping *)
Definition net : NetHTTP :=
  {| URL_String := λ scheme host path query,
       scheme +:+ "://" +:+ host +:+ path +:+
       (if String.eqb query "" then "" else "?" +:+ query);
     NewRequest_error := λ _ _, None |}.

(** *** encoding/json on a fragment of JSON

    Objects, arrays, [true], [false], [null], integers below 2^53
    written without fraction or exponent (and not [-0]), and strings
    of printable ASCII with the escapes for the quote, the backslash,
    the slash, line feed, carriage return and tab.  On such texts the
    parser builds the value [json.Unmarshal] builds (the last of
    several equal keys wins) and the printer writes what
    [json.Marshal] writes: object keys in sorted order, and the
    characters [<], [>] and [&] escaped.  A text outside the fragment
    is refused. *)

Definition JV : Type := Json.Value Z.

Definition is_ws (c : ascii) : bool :=
  existsb (Ascii.eqb c) [" "%char; ascii_of_nat 9; ascii_of_nat 10; ascii_of_nat 13].

Fixpoint skip_ws (s : string) : string :=
  match s with
  | String c s' => if is_ws c then skip_ws s' else s
  | EmptyString => s
  end.

Definition unescape (c : ascii) : option ascii :=
  if Ascii.eqb c (ascii_of_nat 34) then Some c
  else if Ascii.eqb c "\" then Some c
  else if Ascii.eqb c "/" then Some c
  else if Ascii.eqb c "n" then Some (ascii_of_nat 10)
  else if Ascii.eqb c "r" then Some (ascii_of_nat 13)
  else if Ascii.eqb c "t" then Some (ascii_of_nat 9)
  else None.

(** The text after an opening quote, up to the closing one. *)
Fixpoint parse_string (s : string) : option (string * string) :=
  match s with
  | EmptyString => None
  | String c s' =>
      if Ascii.eqb c (ascii_of_nat 34) then Some (EmptyString, s')
      else if Ascii.eqb c "\" then
        match s' with
        | String e s'' =>
            c' ← unescape e;
            r ← parse_string s'';
            Some (String c' r.1, r.2)
        | EmptyString => None
        end
      else if in_range 32 127 c then
        r ← parse_string s';
        Some (String c r.1, r.2)
      else None
  end.

Fixpoint parse_digits (acc : Z) (s : string) : Z * string :=
  match s with
  | String c s' =>
      if is_digit c then parse_digits (10 * acc + (Z.of_N (N_of_ascii c) - 48))%Z s'
      else (acc, s)
  | EmptyString => (acc, s)
  end.

Definition ends_number (s : string) : bool :=
  match s with
  | String c _ => negb (existsb (Ascii.eqb c) ["."; "e"; "E"]%char || is_digit c)
  | EmptyString => true
  end.

(** An integer: [0], or digits that do not start with [0]. *)
Definition parse_natural (s : string) : option (Z * string) :=
  match s with
  | String c s' =>
      if Ascii.eqb c "0" then (if ends_number s' then Some (0%Z, s') else None)
      else if is_digit c then
        let r := parse_digits 0%Z s in
        if ends_number r.2 && (r.1 <? 2 ^ 53)%Z then Some r else None
      else None
  | EmptyString => None
  end.

Definition parse_number (s : string) : option (Z * string) :=
  match s with
  | String "-" s' =>
      r ← parse_natural s';
      if (r.1 =? 0)%Z then None else Some ((- r.1)%Z, r.2)
  | _ => parse_natural s
  end.

Definition literal (word : string) (v : JV) (s : string) : option (JV * string) :=
  if String.prefix word s
  then Some (v, String.substring (String.length word) (String.length s) s)
  else None.

Fixpoint parse_value (fuel : nat) (s : string) : option (JV * string) :=
  match fuel with
  | 0 => None
  | S fuel =>
      match skip_ws s with
      | String "{" s1 =>
          match skip_ws s1 with
          | String "}" s2 => Some (Json.Object ∅, s2)
          | s2 => parse_members fuel ∅ s2
          end
      | String "[" s1 =>
          match skip_ws s1 with
          | String "]" s2 => Some (Json.Array [], s2)
          | s2 => parse_elements fuel [] s2
          end
      | String "t" _ as s1 => literal "true" (Json.Bool true) s1
      | String "f" _ as s1 => literal "false" (Json.Bool false) s1
      | String "n" _ as s1 => literal "null" Json.Null s1
      | String c s1 as s0 =>
          if Ascii.eqb c (ascii_of_nat 34)
          then r ← parse_string s1; Some (Json.Str r.1, r.2)
          else r ← parse_number s0; Some (Json.Number r.1, r.2)
      | EmptyString => None
      end
  end
with parse_elements (fuel : nat) (acc : list JV) (s : string) : option (JV * string) :=
  match fuel with
  | 0 => None
  | S fuel =>
      r ← parse_value fuel s;
      match skip_ws r.2 with
      | String "," s1 => parse_elements fuel (acc ++ [r.1]) s1
      | String "]" s1 => Some (Json.Array (acc ++ [r.1]), s1)
      | _ => None
      end
  end
with parse_members (fuel : nat) (acc : gmap string JV) (s : string) : option (JV * string) :=
  match fuel with
  | 0 => None
  | S fuel =>
      match skip_ws s with
      | String q s1 =>
          if Ascii.eqb q (ascii_of_nat 34) then
            k ← parse_string s1;
            match skip_ws k.2 with
            | String ":" s2 =>
                r ← parse_value fuel s2;
                match skip_ws r.2 with
                | String "," s3 => parse_members fuel (<[k.1 := r.1]> acc) s3
                | String "}" s3 => Some (Json.Object (<[k.1 := r.1]> acc), s3)
                | _ => None
                end
            | _ => None
            end
          else None
      | EmptyString => None
      end
  end.

Definition unmarshal (data : bytes) : result (gmap string JV) :=
  let s := string_of_bytes data in
  match parse_value (2 * String.length s + 2) s with
  | Some (v, rest) =>
      match skip_ws rest, v with
      | EmptyString, Json.Object m => Ok m
      | EmptyString, Json.Null => Ok ∅
      | EmptyString, _ => Err "json: cannot unmarshal into Go value of type map[string]interface {}"
      | _, _ => Err "invalid character after top-level value"
      end
  | None => Err "invalid character"
  end.

Definition escape_char (c : ascii) : string :=
  if Ascii.eqb c (ascii_of_nat 34) then "\" +:+ DQ
  else if Ascii.eqb c "\" then "\\"
  else if Ascii.eqb c (ascii_of_nat 10) then "\n"
  else if Ascii.eqb c (ascii_of_nat 13) then "\r"
  else if Ascii.eqb c (ascii_of_nat 9) then "\t"
  else if Ascii.eqb c "<" then "<"
  else if Ascii.eqb c ">" then ">"
  else if Ascii.eqb c "&" then "&"
  else String c EmptyString.

Fixpoint escape (s : string) : string :=
  match s with
  | EmptyString => EmptyString
  | String c s' => escape_char c +:+ escape s'
  end.

Definition quote (s : string) : string := DQ +:+ escape s +:+ DQ.

Fixpoint join (sep : string) (l : list string) : string :=
  match l with
  | [] => EmptyString
  | [x] => x
  | x :: l' => x +:+ sep +:+ join sep l'
  end.

Definition sortByKey (l : list (string * string)) : list (string * string) :=
  merge_sort (λ x y, Is_true (String.leb x.1 y.1)) l.

Fixpoint marshal_string (v : JV) : string :=
  match v with
  | Json.Null => "null"
  | Json.Bool b => if b then "true" else "false"
  | Json.Number n => pretty n
  | Json.Str s => quote s
  | Json.Array l => "[" +:+ join "," (marshal_string <$> l) +:+ "]"
  | Json.Object m =>
      "{" +:+ join "," ((λ kv, quote kv.1 +:+ ":" +:+ kv.2)
                          <$> sortByKey (map_to_list (marshal_string <$> m))) +:+ "}"
  end.

Definition text_ok (s : string) : bool :=
  string_forallb (λ c, in_range 32 127 c
                       || existsb (Ascii.eqb c) [ascii_of_nat 9; ascii_of_nat 10; ascii_of_nat 13]) s.

Fixpoint in_fragment (v : JV) : bool :=
  match v with
  | Json.Number n => (Z.abs n <? 2 ^ 53)%Z
  | Json.Str s => text_ok s
  | Json.Array l => forallb in_fragment l
  | Json.Object m =>
      map_fold (λ k x acc, text_ok k && x && acc) true (in_fragment <$> m)
  | _ => true
  end.

Definition marshal (v : JV) : result bytes :=
  if in_fragment v then Ok (bytes_of_string (marshal_string v))
  else Err "json: value outside the fragment".

Definition json : Json.Codec :=
  {| Json.float64 := Z; Json.Unmarshal := unmarshal; Json.Marshal := marshal |}.

(** *** Requests, responses and worlds *)

Definition okBody : bytes :=
  bytes_of_string ("{" +:+ DQ +:+ "ok" +:+ DQ +:+ ":true}").

Definition jsonResponse : Response :=
  {| respStatus := "200 OK"; respStatusCode := 200;
     respHeader := {["Content-Type" := ["application/json"]]};
     respBody := okBody; respBodyErr := None |}.

Definition sseResponse : Response :=
  {| respStatus := "200 OK"; respStatusCode := 200;
     respHeader := {["Content-Type" := ["text/event-stream"]]};
     respBody := bytes_of_string ("data: hi" +:+ LF +:+ LF); respBodyErr := None |}.

Definition world (resp : Response) : World :=
  {| upstream := λ _, Ok resp; traceID := "0011223344556677"; now := 0; elapsed := 0 |}.

(** The package-level variables once [main] has loaded the script at
    [path] (no script for a path that is not there) and the forwarder
    has started. *)
Definition globals (path : string) : Globals :=
  startOpenAIForwarder (rt := runtime) (uni := unicode) (lvm := vm) (codec := json)
    {| requestHook := defaultHook; responseHook := defaultHook;
       luaHookManager := loaded path; traces := [] |}.

(** A hook that reports an error, as the type [RequestHook] allows. *)
Definition failingHook : LuaHookManager → bytes → Header → bytes * Header * option error :=
  λ _ body headers, (body, headers, Some "hook failed").

Definition post (body : bytes) : Request :=
  {| reqMethod := "POST"; reqPath := "/v1/chat/completions"; reqRawQuery := "";
     reqHeader := {["Content-Type" := ["application/json"]]};
     reqBody := body; reqBodyErr := None |}.

(** The handler on the concrete implementations. *)
Definition serve (g : Globals) (env : World) (r : Request) : Outcome :=
  handler (rt := runtime) (uni := unicode) (lvm := vm) (comp := compression) (net := net)
    g env r.


(** The request body of the first end-to-end scenario. *)
Definition helloBody : bytes :=
  bytes_of_string
    ("{" +:+ DQ +:+ "messages" +:+ DQ +:+ ":[{" +:+ DQ +:+ "role" +:+ DQ +:+ ":" +:+
     DQ +:+ "user" +:+ DQ +:+ "," +:+ DQ +:+ "content" +:+ DQ +:+ ":" +:+
     DQ +:+ "Hello!" +:+ DQ +:+ "}]}").

(** The same value as [json.Marshal] writes it. *)
Definition helloBodySorted : bytes :=
  bytes_of_string
    ("{" +:+ DQ +:+ "messages" +:+ DQ +:+ ":[{" +:+ DQ +:+ "content" +:+ DQ +:+ ":" +:+
     DQ +:+ "Hello!" +:+ DQ +:+ "," +:+ DQ +:+ "role" +:+ DQ +:+ ":" +:+
     DQ +:+ "user" +:+ DQ +:+ "}]}").

End Concrete.

(** ** More samples *)

Module Samples.

(** The gzip stream of the text of [Concrete.okBody]. *)
Definition okBodyGzip : bytes :=
  [x1f; x8b; x08; x00; x00; x00; x00; x00; x02; xff; xab; x56; xca; xcf; x56; xb2;
   x2a; x29; x2a; x4d; xad; x05; x00; x90; x5f; xd4; xa7; x0b; x00; x00; x00].

(** A codec that decodes this one stream and refuses every other input
    as [Concrete.compression] does. *)
Definition compression : Compression :=
  {| GzipReader := bytes;
     gzip_NewReader := λ b,
       match b with
       | x1f :: x8b :: _ => Ok b
       | [] => Err "EOF"
       | _ => Err "gzip: invalid header"
       end;
     gzip_ReadAll := λ b,
       if String.eqb (string_of_bytes b) (string_of_bytes okBodyGzip)
       then (Concrete.okBody, None)
       else ([], Some "unexpected EOF");
     brotli_ReadAll := λ _, ([], Some "brotli: unexpected end of input") |}.

Definition gzipResponse : Response :=
  {| respStatus := "200 OK"; respStatusCode := 200;
     respHeader := {["Content-Type" := ["application/json"];
                     "Content-Encoding" := ["gzip"]]};
     respBody := okBodyGzip; respBodyErr := None |}.



(** A world in which the upstream cannot be reached. *)
Definition unreachable : World :=
  {| upstream := λ _, Err "dial tcp: connection refused";
     traceID := "0011223344556677"; now := 0; elapsed := 0 |}.

(** The handler with the codec of this module. *)
Definition serve (g : Globals) (env : World) (r : Request) : Outcome :=
  handler (rt := Concrete.runtime) (uni := Concrete.unicode) (lvm := Concrete.vm)
    (comp := compression) (net := Concrete.net) g env r.

(** A request for a path the proxy does not serve. *)
Definition getRoot : Request :=
  {| reqMethod := "GET"; reqPath := "/"; reqRawQuery := "";
     reqHeader := ∅; reqBody := []; reqBodyErr := None |}.

(** A request that asks for compressed content. *)
Definition postAcceptingGzip : Request :=
  {| reqMethod := "POST"; reqPath := "/v1/chat/completions"; reqRawQuery := "";
     reqHeader := {["Content-Type" := ["application/json"];
                    "Accept-Encoding" := ["gzip"]]};
     reqBody := Concrete.helloBody; reqBodyErr := None |}.

(** The upstream request of the examples: the body as [json.Marshal]
    writes it, under the given headers. *)
Definition upstreamOf (r : Request) (headers : Header) : UpstreamRequest :=
  upstreamRequest (rt := Concrete.runtime) (net := Concrete.net) r
    Concrete.helloBodySorted headers.

(** One order of visiting the clients: that of [elements]. *)
Definition clientOrder : Hub.ClientOrder :=
  {| Hub.rangeClients := elements; Hub.rangeClients_perm := λ X, reflexivity _ |}.

(** Peers that take every frame, and peers of which connection 2 takes
    a single frame. *)
Definition allListening : Hub.Peers := λ _ _, true.
Definition secondDrops : Hub.Peers := λ c n, negb ((c =? 2) && (1 <=? n)).

(** The viewer's test on a trace the proxy sent: the time stamp is
    written as a text that is never empty, so the test is whether
    there is a URL. *)
Definition validTrace (t : Trace) : bool := negb (String.eqb (URL t) "").

End Samples.

(** ** Proof tools *)

(** The entries of a map given in full, one goal for each. *)
Ltac map_entries Hk :=
  apply elem_of_map_to_list in Hk; vm_compute in Hk;
  repeat (apply elem_of_cons in Hk as [Hk|Hk]);
  [..|by apply elem_of_nil in Hk]; simplify_eq.

(** Closes a goal whose hypothesis finds a call in a list that does not
    hold it. *)
Ltac absent_call :=
  simpl; rewrite ?elem_of_app, ?elem_of_cons, ?elem_of_nil; intuition discriminate.

(** Membership in the sets of clients and of closed connections. *)
Ltac sets :=
  rewrite ?elem_of_union, ?elem_of_difference, ?elem_of_singleton,
          ?not_elem_of_cons, ?elem_of_cons in *;
  intuition congruence.

(** * Theorems *)

(** ** The bounded history *)

Section History.

Lemma appendTrace_length_le (h : list Trace) (t : Trace) :
  length h ≤ tracesMax → length (appendTrace h t) ≤ tracesMax.
Proof.
  intros Hh. unfold appendTrace. case_decide as Hgt.
  - rewrite length_drop. lia.
  - lia.
Qed.

Lemma appendTrace_drop (h : list Trace) (t : Trace) :
  appendTrace h t = drop (length (h ++ [t]) - tracesMax) (h ++ [t]).
Proof.
  unfold appendTrace. case_decide as Hgt; [done|].
  replace (length (h ++ [t]) - tracesMax) with 0 by lia. done.
Qed.

(** A run of insertions keeps the last [tracesMax] of everything the
    history has held. *)
Lemma foldl_appendTrace_drop (l h : list Trace) :
  length h ≤ tracesMax →
  foldl appendTrace h l = drop (length (h ++ l) - tracesMax) (h ++ l).
Proof.
  revert h. induction l as [|t l IH]; intros h Hh; simpl.
  - rewrite app_nil_r. replace (length h - tracesMax) with 0 by lia. done.
  - rewrite IH by (by apply appendTrace_length_le).
    rewrite appendTrace_drop.
    rewrite <- drop_app_le by (rewrite length_app; simpl; lia).
    rewrite drop_drop, <- app_assoc. simpl. f_equal.
    rewrite !length_app, length_drop, !length_app. simpl. lia.
Qed.

Lemma foldl_appendTrace_length_le (l h : list Trace) :
  length h ≤ tracesMax → length (foldl appendTrace h l) ≤ tracesMax.
Proof.
  revert h. induction l as [|t l IH]; intros h Hh; simpl; [done|].
  apply IH, appendTrace_length_le, Hh.
Qed.

End History.

(** C3. Starting from the empty history, after [tracesMax + k]
    insertions with [k ≥ 1] the history holds exactly [tracesMax]
    traces, namely the last [tracesMax] inserted ones in insertion
    order, and after every single insertion along the way its length is
    at most [tracesMax]. *)
Theorem C3_bounded_history_fifo (inserted : list Trace) (k : nat) :
  1 ≤ k →
  length inserted = tracesMax + k →
  length (foldl appendTrace [] inserted) = tracesMax
  ∧ foldl appendTrace [] inserted = drop k inserted
  ∧ ∀ n, length (foldl appendTrace [] (take n inserted)) ≤ tracesMax.
Proof.
  intros Hk Hlen.
  assert (foldl appendTrace [] inserted = drop k inserted) as Heq.
  { rewrite foldl_appendTrace_drop by (simpl; lia). simpl.
    f_equal. lia. }
  split; [|split].
  - rewrite Heq, length_drop. lia.
  - exact Heq.
  - intros n. apply foldl_appendTrace_length_le. simpl. lia.
Qed.

Lemma C3_witness :
  length (foldl appendTrace [] (Concrete.tracesUpTo 103)) = tracesMax
  ∧ foldl appendTrace [] (Concrete.tracesUpTo 103) = drop 3 (Concrete.tracesUpTo 103)
  ∧ ∀ n, length (foldl appendTrace [] (take n (Concrete.tracesUpTo 103))) ≤ tracesMax.
Proof.
  apply (C3_bounded_history_fifo (Concrete.tracesUpTo 103) 3).
  - lia.
  - reflexivity.
Defined.

(** ** Loading a hook script *)

(** C7. [LoadHookScript] returns an error exactly when the file cannot
    be read, the script does not run, or the script defines neither
    [processRequest] nor [processResponse]; then the manager is left as
    it was.  Otherwise the script text, the two entry-point flags and
    [enabled] are installed together. *)
Theorem C7_LoadHookScript_all_or_nothing {lvm : VM}
    (fs : FileSystem) (scriptPath : string) (lhm : LuaHookManager) :
  let r := LoadHookScript fs scriptPath lhm in
  let unreadable := ∃ e, fs scriptPath = Err e in
  let invalid := ∃ data e,
      fs scriptPath = Ok data ∧ DoString (string_of_bytes data) = Err e in
  let noEntryPoints := ∃ data L,
      fs scriptPath = Ok data ∧ DoString (string_of_bytes data) = Ok L
      ∧ isFunction (GetGlobal L "processRequest") = false
      ∧ isFunction (GetGlobal L "processResponse") = false in
  (is_Some r.1 ↔ unreadable ∨ invalid ∨ noEntryPoints)
  ∧ (is_Some r.1 → r.2 = lhm)
  ∧ (r.1 = None →
     ∃ data L, fs scriptPath = Ok data ∧ DoString (string_of_bytes data) = Ok L
       ∧ r.2 = {| luaScript := string_of_bytes data; enabled := true;
                  hasRequest := isFunction (GetGlobal L "processRequest");
                  hasResponse := isFunction (GetGlobal L "processResponse") |}).
Proof.
  unfold LoadHookScript.
  destruct (fs scriptPath) as [data|e] eqn:Hfs; simpl.
  2:{ split; [|split]; [|done|by intros [=]].
      split; [intros _; left; eauto | eauto]. }
  destruct (DoString (string_of_bytes data)) as [L|e] eqn:Hdo; simpl.
  2:{ split; [|split]; [|done|by intros [=]].
      split; [intros _; right; left; eauto | eauto]. }
  destruct (isFunction (GetGlobal L "processRequest")) eqn:Hreq;
    destruct (isFunction (GetGlobal L "processResponse")) eqn:Hresp; simpl.
  4:{ split; [|split]; [|done|by intros [=]].
      split; [intros _; right; right; exists data, L; eauto | eauto]. }
  all: split; [|split]; [| by intros [? [=]] | intros _; exists data, L; by rewrite ?Hreq, ?Hresp].
  all: split; [by intros [? [=]]|].
  all: intros [[e He]|[(d & e & Hd & He)|(d & L' & Hd & HL & H1 & H2)]]; simplify_eq; congruence.
Qed.

(** A file that does not compile leaves the loaded sample script in
    place; a file that does installs its script and flags. *)
Lemma C7_witness :
  let lhm := Concrete.loaded "sample.lua" in
  (LoadHookScript (lvm := Concrete.vm) Concrete.fileSystem "broken.lua" lhm).2 = lhm
  ∧ (LoadHookScript (lvm := Concrete.vm) Concrete.fileSystem "missing.lua" lhm).2 = lhm
  ∧ (LoadHookScript (lvm := Concrete.vm) Concrete.fileSystem "no_entry.lua" lhm).2 = lhm
  ∧ ∃ data L,
      Concrete.fileSystem "x_test.lua" = Ok data
      ∧ DoString (VM := Concrete.vm) (string_of_bytes data) = Ok L
      ∧ (LoadHookScript (lvm := Concrete.vm) Concrete.fileSystem "x_test.lua" lhm).2
        = {| luaScript := string_of_bytes data; enabled := true;
             hasRequest := isFunction (GetGlobal (VM := Concrete.vm) L "processRequest");
             hasResponse := isFunction (GetGlobal (VM := Concrete.vm) L "processResponse") |}.
Proof.
  cbv zeta.
  pose proof (λ path, C7_LoadHookScript_all_or_nothing (lvm := Concrete.vm)
                        Concrete.fileSystem path (Concrete.loaded "sample.lua")) as Hload.
  cbv zeta in Hload.
  split; [|split; [|split]].
  - apply (Hload "broken.lua"). vm_compute. eauto.
  - apply (Hload "missing.lua"). vm_compute. eauto.
  - apply (Hload "no_entry.lua"). vm_compute. eauto.
  - apply (Hload "x_test.lua"). vm_compute. reflexivity.
Defined.

(** ** The content codec *)

(** C8. When the encoding is gzip or br and the decompressing reader
    cannot be built or read to its end, [decompressBody] returns the
    bytes it was given together with an error; for every other encoding
    (the empty one and identity included) it returns them with no
    error. *)
Theorem C8_decompressBody_contract {comp : Compression} (b : bytes) (e : string) :
  let gzipFails :=
    (∃ err, gzip_NewReader b = Err err)
    ∨ (∃ reader, gzip_NewReader b = Ok reader ∧ is_Some (gzip_ReadAll reader).2) in
  let brotliFails := is_Some (brotli_ReadAll b).2 in
  (e = "gzip" → gzipFails → ∃ err, decompressBody b e = (b, Some err))
  ∧ (e = "br" → brotliFails → ∃ err, decompressBody b e = (b, Some err))
  ∧ (e ≠ "gzip" → e ≠ "br" → decompressBody b e = (b, None)).
Proof.
  simpl. unfold decompressBody. split; [|split].
  - intros -> [[err Herr]|(reader & Hrd & [err Herr])]; simpl.
    + rewrite Herr. eauto.
    + rewrite Hrd. destruct (gzip_ReadAll reader) as [d o]. simpl in Herr. subst o. eauto.
  - intros -> [err Herr]; simpl.
    destruct (brotli_ReadAll b) as [d o]. simpl in Herr. subst o. eauto.
  - intros Hg Hb.
    apply String.eqb_neq in Hg, Hb. by rewrite Hg, Hb.
Qed.

Lemma C8_witness :
  (∃ err, decompressBody (comp := Concrete.compression) (bytes_of_string "plain text") "gzip"
          = (bytes_of_string "plain text", Some err))
  ∧ decompressBody (comp := Concrete.compression) (bytes_of_string "plain text") "identity"
    = (bytes_of_string "plain text", None)
  ∧ decompressBody (comp := Concrete.compression) (bytes_of_string "plain text") ""
    = (bytes_of_string "plain text", None).
Proof.
  pose proof (C8_decompressBody_contract (comp := Concrete.compression)
                (bytes_of_string "plain text") "gzip") as Hgzip.
  pose proof (C8_decompressBody_contract (comp := Concrete.compression)
                (bytes_of_string "plain text") "identity") as Hid.
  pose proof (C8_decompressBody_contract (comp := Concrete.compression)
                (bytes_of_string "plain text") "") as Hempty.
  cbv zeta in Hgzip, Hid, Hempty.
  split; [|split].
  - apply (proj1 Hgzip); [reflexivity|]. left. eexists. reflexivity.
  - apply (proj2 (proj2 Hid)); discriminate.
  - apply (proj2 (proj2 Hempty)); discriminate.
Defined.

(** ** Headers and Lua tables *)

Section Tables.
Context {rt : Runtime} {uni : Unicode} {lvm : VM}.

(** [range] visits exactly the entries of the map, each name once. *)
Lemma elem_of_rangeOrder {A} (m : gmap string A) (k : string) (x : A) :
  (k, x) ∈ rangeOrder m ↔ m !! k = Some x.
Proof. by rewrite rangeOrder_perm, elem_of_map_to_list. Qed.

Lemma NoDup_rangeOrder {A} (m : gmap string A) : NoDup (rangeOrder m).*1.
Proof. rewrite rangeOrder_perm. apply NoDup_fst_map_to_list. Qed.

(** Within the array bound a list of values becomes the array part of
    a table. *)
Lemma valueTable_array (values : list string) :
  (Z.of_nat (length values) < MaxArrayIndex)%Z →
  valueTable values = Table (LString <$> values) ∅ [].
Proof.
  unfold valueTable.
  induction values as [|v values IH] using rev_ind; intros Hlen; [done|].
  rewrite length_app in Hlen. simpl in Hlen.
  rewrite imap_app, foldl_app, IH by lia. simpl.
  rewrite fmap_app. simpl. unfold RawSetInt.
  assert ((Z.of_nat (length values + 0) + 1 <? 1)%Z = false) as ->
    by (apply Z.ltb_ge; lia).
  assert ((MaxArrayIndex <=? Z.of_nat (length values + 0) + 1)%Z = false) as ->
    by (apply Z.leb_gt; lia).
  simpl. rewrite length_fmap.
  rewrite decide_True by lia. done.
Qed.

Lemma forEachArray_strings (i : Z) (values acc : list string) :
  forEachArray i (LString <$> values) (λ _ v values, values ++ [String_ v]) acc
  = acc ++ values.
Proof.
  revert i acc. induction values as [|v values IH]; intros i acc; simpl.
  - by rewrite app_nil_r.
  - rewrite IH, <- app_assoc. done.
Qed.

Lemma ForEach_values (values : list string) :
  ForEach (Table (LString <$> values) ∅ []) (λ _ v values, values ++ [String_ v]) []
  = values.
Proof.
  unfold ForEach, range. rewrite forEachArray_strings.
  assert (rangeOrder (∅ : gmap string LValue) = []) as ->.
  { apply Permutation_nil_r. by rewrite rangeOrder_perm, map_to_list_empty. }
  done.
Qed.

(** Entries with distinct names can be stored in any order: what is
    found under a name is what its entry stores. *)
Lemma foldl_store_lookup {A B} (f : A → option B) (entries : list (string * A))
    (j : string) (y : B) :
  NoDup entries.*1 →
  foldl (λ (acc : gmap string B) kv,
           match f kv.2 with Some y => <[kv.1 := y]> acc | None => acc end) ∅ entries
    !! j = Some y
  ↔ ∃ x, (j, x) ∈ entries ∧ f x = Some y.
Proof.
  induction entries as [|[k x] entries IH] using rev_ind; intros Hnd.
  - simpl. rewrite lookup_empty. split; [done|]. by intros (? & ?%elem_of_nil & _).
  - rewrite fmap_app in Hnd. apply NoDup_app in Hnd as (Hnd & Hfresh & _).
    assert (∀ x', (k, x') ∉ entries) as Hk.
    { intros x' Hin. apply (Hfresh k); [|simpl; left].
      apply list_elem_of_fmap. by exists (k, x'). }
    rewrite foldl_app. simpl.
    setoid_rewrite elem_of_app. setoid_rewrite list_elem_of_singleton.
    destruct (f x) as [y0|] eqn:Hfx.
    + rewrite lookup_insert. case_decide as Hkj; subst.
      * split.
        -- intros [= <-]. exists x. eauto.
        -- intros (x' & [Hin|[= ->]] & Hx'); [by destruct (Hk x')|congruence].
      * rewrite IH by done. split.
        -- intros (x' & Hin & Hx'). eauto.
        -- intros (x' & [Hin|[= -> ->]] & Hx'); [eauto|done].
    + rewrite IH by done. split.
      * intros (x' & Hin & Hx'). eauto.
      * intros (x' & [Hin|[= -> ->]] & Hx'); [eauto|congruence].
Qed.

Lemma foldl_step_ext {A B} (f g : A → B → A) (l : list B) (a : A) :
  (∀ a b, f a b = g a b) → foldl f a l = foldl g a l.
Proof.
  intros Hfg. revert a. induction l as [|b l IH]; intros a; simpl; [done|].
  by rewrite Hfg, IH.
Qed.

(** A table with string keys only becomes the header map of its
    entries that are tables, in whatever order they are visited. *)
Lemma luaTableToHttpHeader_strdict (strdict : gmap string LValue) :
  luaTableToHttpHeader (Table [] strdict []) = omap headerValues strdict.
Proof.
  assert (luaTableToHttpHeader (Table [] strdict [])
          = foldl (λ (acc : Header) kv,
                     match headerValues kv.2 with
                     | Some y => <[kv.1 := y]> acc
                     | None => acc
                     end) ∅ (rangeOrder strdict)) as ->.
  { unfold luaTableToHttpHeader, ForEach, range. simpl.
    apply foldl_step_ext. by intros acc [k []]. }
  apply map_eq. intros j. apply option_eq. intros values.
  rewrite foldl_store_lookup by apply NoDup_rangeOrder.
  rewrite lookup_omap_Some. setoid_rewrite elem_of_rangeOrder.
  split; intros (x & ? & ?); eauto.
Qed.

Lemma httpHeaderToLuaTable_entries (entries : list (string * list string)) :
  ∃ strdict : gmap string LValue,
    foldl (λ table kv,
             RawSetString table (GoStrings.ToLower kv.1) (LTab (valueTable kv.2)))
          NewTable entries
    = Table [] strdict []
    ∧ (∀ k' v, strdict !! k' = Some v →
         ∃ k values, (k, values) ∈ entries ∧ GoStrings.ToLower k = k'
                     ∧ v = LTab (valueTable values))
    ∧ (∀ k values, (k, values) ∈ entries → is_Some (strdict !! GoStrings.ToLower k)).
Proof.
  induction entries as [|[i x] entries (strdict & IH & Hfrom & Hto)] using rev_ind.
  - exists ∅. split; [done|]. split.
    + intros ? ?. by rewrite lookup_empty.
    + by intros ? ? ?%elem_of_nil.
  - exists (<[GoStrings.ToLower i := LTab (valueTable x)]> strdict).
    rewrite foldl_app, IH. split; [done|]. split.
    + intros k' v. rewrite lookup_insert. case_decide as Hk; subst.
      * intros [= <-]. exists i, x. split; [|done].
        apply elem_of_app. right. by apply list_elem_of_singleton.
      * intros (k & values & Hin & <- & ->)%Hfrom. exists k, values.
        split; [|done]. apply elem_of_app. by left.
    + intros k values [Hin|[= -> ->]%list_elem_of_singleton]%elem_of_app.
      * apply lookup_insert_is_Some'. right. eauto.
      * by rewrite lookup_insert_eq.
Qed.

Lemma httpHeaderToLuaTable_strdict (headers : Header) :
  ∃ strdict : gmap string LValue,
    httpHeaderToLuaTable headers = Table [] strdict []
    ∧ (∀ k' v, strdict !! k' = Some v →
         ∃ k values, headers !! k = Some values ∧ GoStrings.ToLower k = k'
                     ∧ v = LTab (valueTable values))
    ∧ (∀ k values, headers !! k = Some values →
         is_Some (strdict !! GoStrings.ToLower k)).
Proof.
  destruct (httpHeaderToLuaTable_entries (rangeOrder headers))
    as (strdict & Htb & Hfrom & Hto).
  exists strdict. split; [exact Htb|]. split.
  - intros k' v (k & values & Hin%elem_of_rangeOrder & Hrest)%Hfrom. eauto.
  - intros k values Hk%elem_of_rangeOrder. eauto.
Qed.

End Tables.

(** C9, as stated, fails: the key of a header comes back in lower case. *)
Lemma C9_counterexample :
  luaTableToHttpHeader (rt := Concrete.runtime) (lvm := Concrete.vm)
    (httpHeaderToLuaTable (rt := Concrete.runtime) (uni := Concrete.unicode) {["X-Test" := ["1"]]})
  ≠ {["X-Test" := ["1"]]}.
Proof.
  assert (luaTableToHttpHeader (rt := Concrete.runtime) (lvm := Concrete.vm)
            (httpHeaderToLuaTable (rt := Concrete.runtime) (uni := Concrete.unicode) {["X-Test" := ["1"]]})
          = {["x-test" := ["1"]]}) as -> by (vm_compute; reflexivity).
  intros Heq. apply (f_equal (λ m : Header, m !! "X-Test")) in Heq.
  vm_compute in Heq. discriminate.
Qed.

(** C9 (amended). For a header map whose value lists stay below the
    array bound of a Lua table and in which no two names share their
    lower-case form, converting to a Lua table and back gives, in
    whatever order the maps are visited, the map with every name in
    lower case: each name's values are found, unchanged in number and
    order, under the lower-case name, and no other name appears.  A map
    whose names are all in lower case comes back as it was. *)
Theorem C9_roundtrip_lowercases_names {rt : Runtime} {uni : Unicode} {lvm : VM}
    (headers : Header) :
  (∀ k values, headers !! k = Some values →
               (Z.of_nat (length values) < MaxArrayIndex)%Z) →
  (∀ k1 k2, is_Some (headers !! k1) → is_Some (headers !! k2) →
            GoStrings.ToLower k1 = GoStrings.ToLower k2 → k1 = k2) →
  let back := luaTableToHttpHeader (httpHeaderToLuaTable headers) in
  (∀ k values, headers !! k = Some values → back !! GoStrings.ToLower k = Some values)
  ∧ (∀ k', is_Some (back !! k') → ∃ k, is_Some (headers !! k) ∧ k' = GoStrings.ToLower k)
  ∧ ((∀ k, is_Some (headers !! k) → GoStrings.ToLower k = k) → back = headers).
Proof.
  intros Hbound Hinj back. subst back.
  destruct (httpHeaderToLuaTable_strdict headers) as (strdict & -> & Hfrom & Hto).
  rewrite luaTableToHttpHeader_strdict.
  assert (∀ k values, headers !! k = Some values →
            omap headerValues strdict !! GoStrings.ToLower k = Some values) as Hfound.
  { intros k values Hk. rewrite lookup_omap.
    destruct (Hto _ _ Hk) as [v Hv]. rewrite Hv. simpl.
    destruct (Hfrom _ _ Hv) as (k0 & values0 & Hk0 & Hlow & ->).
    assert (k0 = k) as -> by (apply Hinj; eauto).
    assert (values0 = values) as -> by congruence.
    simpl. rewrite valueTable_array by eauto. by rewrite ForEach_values. }
  assert (∀ k', is_Some (omap headerValues strdict !! k') →
            ∃ k, is_Some (headers !! k) ∧ k' = GoStrings.ToLower k) as Honly.
  { intros k'. rewrite lookup_omap. intros [values Hv].
    destruct (strdict !! k') as [v|] eqn:Hk'; [|done].
    destruct (Hfrom _ _ Hk') as (k & values0 & Hk & <- & _). eauto. }
  split; [exact Hfound|]. split; [exact Honly|].
  intros Hlower. apply map_eq. intros k.
  destruct (headers !! k) as [values|] eqn:Hk.
  - rewrite <- (Hlower k) by eauto. by apply Hfound.
  - apply eq_None_not_Some. intros (k0 & Hk0 & ->)%Honly.
    rewrite Hlower in Hk by done. rewrite Hk in Hk0. by destruct Hk0.
Qed.

Lemma C9_witness :
  luaTableToHttpHeader (rt := Concrete.runtime) (lvm := Concrete.vm)
    (httpHeaderToLuaTable (rt := Concrete.runtime) (uni := Concrete.unicode) Concrete.lowerHeaders)
  = Concrete.lowerHeaders.
Proof.
  apply (C9_roundtrip_lowercases_names (rt := Concrete.runtime) (uni := Concrete.unicode) (lvm := Concrete.vm)
           Concrete.lowerHeaders).
  - intros k values Hk. map_entries Hk; vm_compute; reflexivity.
  - intros k1 k2 [v1 Hk1] [v2 Hk2]. map_entries Hk1; map_entries Hk2;
      solve [reflexivity | vm_compute; discriminate].
  - intros k [v Hk]. map_entries Hk; reflexivity.
Defined.

(** ** Running a Lua hook *)

Section HookExecution.
Context {rt : Runtime} {uni : Unicode} {lvm : VM}.



Lemma ExecuteRequestHook_no_error lhm body headers :
  (ExecuteRequestHook lhm body headers).2 = None.
Proof. unfold ExecuteRequestHook. by repeat case_match. Qed.

Lemma ExecuteResponseHook_no_error lhm body headers :
  (ExecuteResponseHook lhm body headers).2 = None.
Proof. unfold ExecuteResponseHook. by repeat case_match. Qed.

End HookExecution.




(** ** The forwarding handler *)

Section HandlerFacts.
Context {rt : Runtime} {uni : Unicode} {lvm : VM} {comp : Compression} {net : NetHTTP}.

(** A trace is recorded only after the request hook succeeded and the
    upstream answered the request built from the hook's result; it then
    holds that result. *)
Lemma handler_trace_inv (g : Globals) (env : World) (r : Request) (t : Trace) :
  broadcast (handler g env r) = Some t →
  ∃ body headers resp,
    requestHook g (luaHookManager g) (reqBody r) (reqHeader r) = (body, headers, None)
    ∧ upstream env (upstreamRequest r body headers) = Ok resp
    ∧ forwarded (handler g env r) = [upstreamRequest r body headers]
    ∧ RequestBody t = string_of_bytes body
    ∧ RequestHeader t = headers
    ∧ history (handler g env r) = appendTrace (traces g) t.
Proof.
  unfold handler, upstreamRequest.
  destruct (negb (GoStrings.HasPrefix (reqPath r) "/v1/")); [done|].
  destruct (reqBodyErr r); [done|].
  destruct (requestHook g (luaHookManager g) (reqBody r) (reqHeader r))
    as [[body headers] [e|]]; [done|].
  destruct (NewRequest_error _ _); [done|].
  destruct (upstream env _) as [resp|e] eqn:Hup; [|done].
  intros Ht. exists body, headers, resp. split; [done|]. split; [done|].
  revert Ht. repeat case_match; simpl; try done.
  all: intros [= <-]; simplify_eq; unfold forwarded; simpl; rewrite ?omap_app; simpl; done.
Qed.

End HandlerFacts.

Section Pipeline.
Context {rt : Runtime} {uni : Unicode} {lvm : VM} {comp : Compression} {net : NetHTTP}.

(** What reaches the upstream, if anything, is the one request built
    from the result of the request hook. *)
Lemma handler_forwarded_cases (g : Globals) (env : World) (r : Request) :
  forwarded (handler g env r) = []
  ∨ ∃ body headers,
      GoStrings.HasPrefix (reqPath r) "/v1/" = true
      ∧ reqBodyErr r = None
      ∧ requestHook g (luaHookManager g) (reqBody r) (reqHeader r) = (body, headers, None)
      ∧ NewRequest_error (reqMethod r)
          (URL_String "https" "api.openai.com" (reqPath r) (reqRawQuery r)) = None
      ∧ forwarded (handler g env r) = [upstreamRequest r body headers].
Proof.
  unfold handler, upstreamRequest.
  destruct (GoStrings.HasPrefix (reqPath r) "/v1/"); simpl; [|by left].
  destruct (reqBodyErr r); [by left|].
  destruct (requestHook g (luaHookManager g) (reqBody r) (reqHeader r))
    as [[body headers] [e|]]; [by left|].
  destruct (NewRequest_error _ _); [by left|].
  right. exists body, headers. do 4 (split; [done|]).
  repeat case_match; simplify_eq; unfold forwarded; simpl;
    rewrite ?omap_app; simpl; congruence.
Qed.

Lemma handler_forwarded_inv (g : Globals) (env : World) (r : Request) (req : UpstreamRequest) :
  req ∈ forwarded (handler g env r) →
  ∃ body headers,
    GoStrings.HasPrefix (reqPath r) "/v1/" = true
    ∧ reqBodyErr r = None
    ∧ requestHook g (luaHookManager g) (reqBody r) (reqHeader r) = (body, headers, None)
    ∧ NewRequest_error (reqMethod r)
        (URL_String "https" "api.openai.com" (reqPath r) (reqRawQuery r)) = None
    ∧ forwarded (handler g env r) = [req]
    ∧ req = upstreamRequest r body headers.
Proof.
  destruct (handler_forwarded_cases g env r)
    as [->|(body & headers & Hpath & Hbody & Hhook & Hnew & ->)].
  - by intros ?%elem_of_nil.
  - intros ->%list_elem_of_singleton. exists body, headers. done.
Qed.

(** The history changes by one insertion when a trace is recorded and
    not at all otherwise. *)
Lemma handler_history (g : Globals) (env : World) (r : Request) :
  history (handler g env r)
  = match broadcast (handler g env r) with
    | Some t => appendTrace (traces g) t
    | None => traces g
    end.
Proof. unfold handler. repeat case_match; simplify_eq/=; done. Qed.


(** The status line and the header block the client receives are
    fixed as soon as the upstream has answered: they are the upstream's
    status code and headers, whatever the hooks do afterwards. *)
Lemma handler_wire_header (g : Globals) (env : World) (r : Request)
    (req : UpstreamRequest) (resp : Response) :
  forwarded (handler g env r) = [req] →
  upstream env req = Ok resp →
  Http.wireStatus (client (handler g env r)) = respStatusCode resp
  ∧ Http.wireHeader (client (handler g env r)) = addAll (respHeader resp) ∅.
Proof.
  unfold handler.
  destruct (negb (GoStrings.HasPrefix (reqPath r) "/v1/")); [done|].
  destruct (reqBodyErr r); [done|].
  destruct (requestHook g (luaHookManager g) (reqBody r) (reqHeader r))
    as [[body headers] [e|]]; [done|].
  destruct (NewRequest_error _ _); [done|].
  destruct (upstream env _) as [resp'|e] eqn:Hup.
  2:{ unfold forwarded; simpl. intros [= <-]. congruence. }
  intros Hreq Hresp.
  assert (resp' = resp) as ->.
  { revert Hreq. repeat case_match; simplify_eq; unfold forwarded; simpl;
      rewrite ?omap_app; simpl; intros [= <-]; congruence. }
  clear Hreq. repeat case_match; simplify_eq; done.
Qed.

(** When the request hook returns an error the handler answers 500
    with its own message; nothing is forwarded and nothing recorded. *)
Lemma handler_request_hook_error (g : Globals) (env : World) (r : Request) :
  GoStrings.HasPrefix (reqPath r) "/v1/" = true →
  reqBodyErr r = None →
  is_Some (requestHook g (luaHookManager g) (reqBody r) (reqHeader r)).2 →
  handler g env r
  = {| client := Http.Error "Request hook error" Http.StatusInternalServerError
                   Http.newResponseWriter;
       calls := [CallRequestHook (reqBody r) (reqHeader r)];
       history := traces g; broadcast := None |}.
Proof.
  intros Hpath Hbody [e He]. unfold handler. rewrite Hpath, Hbody. simpl.
  destruct (requestHook g (luaHookManager g) (reqBody r) (reqHeader r)) as [[b h] o].
  simpl in He. by subst o.
Qed.

(** When the response hook returns an error the handler stops: the
    client has the status and the headers but no body, and no trace is
    recorded. *)
Lemma handler_response_hook_error (g : Globals) (env : World) (r : Request)
    (body : bytes) (headers : Header) :
  CallResponseHook body headers ∈ calls (handler g env r) →
  is_Some (responseHook g (luaHookManager g) body headers).2 →
  Http.wireBody (client (handler g env r)) = []
  ∧ broadcast (handler g env r) = None
  ∧ history (handler g env r) = traces g.
Proof.
  unfold handler.
  destruct (negb (GoStrings.HasPrefix (reqPath r) "/v1/")); [absent_call|].
  destruct (reqBodyErr r); [absent_call|].
  destruct (requestHook g (luaHookManager g) (reqBody r) (reqHeader r))
    as [[b h] [e|]]; [absent_call|].
  destruct (NewRequest_error _ _); [absent_call|].
  destruct (upstream env _) as [resp|e]; [|absent_call].
  destruct (_ || _); [destruct (respBodyErr resp); absent_call|].
  destruct (respBodyErr resp); [absent_call|].
  intros Hin [e He]. revert Hin.
  repeat case_match; simplify_eq; simpl in *.
  all: rewrite ?elem_of_app, ?elem_of_cons, ?elem_of_nil.
  all: intros Hin; try done.
  all: destruct_or?; simplify_eq; try done.
  all: match goal with
       | H1 : responseHook _ _ _ _ = _ |- _ => rewrite H1 in He; simpl in He; simplify_eq
       end.
Qed.

End Pipeline.



Example rewrite_hook_is_recorded :
  let o := Concrete.serve (Concrete.globals "rewrite.lua")
             (Concrete.world Concrete.jsonResponse) (Concrete.post Concrete.helloBody) in
  RequestBody <$> broadcast o = Some "rewritten"
  ∧ RequestHeader <$> broadcast o = Some {["x-hook" := ["on"]]}
  ∧ outBody <$> forwarded o = [bytes_of_string "rewritten"]
  ∧ outHeader <$> forwarded o = [{["X-Hook" := ["on"]; "Accept-Encoding" := ["identity"]]}].
Proof. cbv zeta. repeat split; vm_compute; reflexivity. Qed.



(** ** The prompt hook *)

Section PromptHookFacts.
Context {rt : Runtime} {uni : Unicode} {lvm : VM} {codec : Json.Codec}.

Lemma messagesArrayOf_Some (messages : list JValue) (messagesArray : list JMap) :
  messagesArrayOf messages = Some messagesArray →
  Json.Object <$> messagesArray = messages.
Proof.
  revert messagesArray.
  induction messages as [|msg messages IH]; intros messagesArray; simpl.
  - by intros [= <-].
  - destruct msg; try done.
    destruct (messagesArrayOf messages) as [rest|]; [|done].
    intros [= <-]. simpl. f_equal. by apply IH.
Qed.

(** The only error [promptHook] can return is that of [json.Marshal]
    on the object [json.Unmarshal] has just produced. *)
Lemma promptHook_error (lhm : LuaHookManager) (body : bytes) (headers : Header) (e : error) :
  (promptHook lhm body headers).2 = Some e →
  ∃ requestBody,
    Json.Unmarshal body = Ok requestBody
    ∧ Json.Marshal (Json.Object requestBody) = Err e.
Proof.
  unfold promptHook, messagesHook.
  destruct (Json.Unmarshal body) as [requestBody|e0]; [|done].
  destruct (requestBody !! "messages") as [messages|] eqn:Hmsgs;
    [|by rewrite ExecuteRequestHook_no_error].
  destruct messages as [| | | |messages|];
    try (by rewrite ExecuteRequestHook_no_error).
  destruct (messagesArrayOf messages) as [messagesArray|] eqn:Harr; [|done].
  rewrite (messagesArrayOf_Some _ _ Harr), (insert_id _ _ _ Hmsgs).
  destruct (Json.Marshal (Json.Object requestBody)) as [b|e1] eqn:Hmarshal.
  - by rewrite ExecuteRequestHook_no_error.
  - intros [= ->]. eauto.
Qed.

(** With no script loaded, a body whose messages are all objects is
    replaced by the serialization of its parsed value. *)
Lemma promptHook_no_script (lhm : LuaHookManager) (body : bytes) (headers : Header)
    (requestBody : JMap) (messages : list JValue) (messagesArray : list JMap)
    (modifiedBody : bytes) :
  enabled lhm = false →
  Json.Unmarshal body = Ok requestBody →
  requestBody !! "messages" = Some (Json.Array messages) →
  messagesArrayOf messages = Some messagesArray →
  Json.Marshal (Json.Object requestBody) = Ok modifiedBody →
  promptHook lhm body headers = (modifiedBody, headers, None).
Proof.
  intros Hoff Hparse Hmsgs Harr Hmarshal. unfold promptHook, messagesHook.
  rewrite Hparse, Hmsgs, Harr.
  rewrite (messagesArrayOf_Some _ _ Harr), (insert_id _ _ _ Hmsgs), Hmarshal.
  unfold ExecuteRequestHook. by rewrite Hoff.
Qed.

End PromptHookFacts.

(** C5, as stated, fails: with no script loaded the body is parsed and
    serialized again, which puts the keys of every object in sorted
    order; the bytes forwarded and recorded differ from those
    received. *)
Lemma C5_counterexample :
  let g := Concrete.globals "none" in
  let o := Concrete.serve g (Concrete.world Concrete.jsonResponse)
             (Concrete.post Concrete.helloBody) in
  luaHookManager g = luaHookManager0
  ∧ outBody <$> forwarded o = [Concrete.helloBodySorted]
  ∧ RequestBody <$> broadcast o = Some (string_of_bytes Concrete.helloBodySorted)
  ∧ Concrete.helloBodySorted ≠ Concrete.helloBody
  ∧ string_of_bytes Concrete.helloBodySorted ≠ string_of_bytes Concrete.helloBody.
Proof.
  cbv zeta. split; [vm_compute; reflexivity|]. split; [vm_compute; reflexivity|].
  split; [vm_compute; reflexivity|]. split; vm_compute; discriminate.
Qed.

(** C5 (amended). With no script loaded, a request body that parses to
    an object whose [messages] is an array of objects is forwarded as
    the serialization of the parsed object (the same JSON value, written
    by [json.Marshal]), and the trace's request body is that forwarded
    body.  For the body of the scenario this is the text with the keys
    [content] and [role] in sorted order. *)
Theorem C5_no_script_body_is_reserialized {rt : Runtime} {uni : Unicode} {lvm : VM}
    {codec : Json.Codec} {comp : Compression} {net : NetHTTP} (g : Globals) (env : World) (r : Request)
    (requestBody : JMap) (messages : list JValue) (messagesArray : list JMap)
    (modifiedBody : bytes) :
  requestHook g = promptHook →
  enabled (luaHookManager g) = false →
  Json.Unmarshal (reqBody r) = Ok requestBody →
  requestBody !! "messages" = Some (Json.Array messages) →
  messagesArrayOf messages = Some messagesArray →
  Json.Marshal (Json.Object requestBody) = Ok modifiedBody →
  (∀ req, req ∈ forwarded (handler g env r) → outBody req = modifiedBody)
  ∧ (∀ t, broadcast (handler g env r) = Some t →
       RequestBody t = string_of_bytes modifiedBody
       ∧ outBody <$> forwarded (handler g env r) = [modifiedBody]).
Proof.
  intros Hhook Hoff Hparse Hmsgs Harr Hmarshal.
  pose proof (promptHook_no_script (luaHookManager g) (reqBody r) (reqHeader r)
                _ _ _ _ Hoff Hparse Hmsgs Harr Hmarshal) as Hrun.
  rewrite <- Hhook in Hrun. split.
  - intros req (body & headers & _ & _ & Hrun' & _ & _ & ->)%handler_forwarded_inv.
    rewrite Hrun in Hrun'. by injection Hrun' as <- <-.
  - intros t (body & headers & resp & Hrun' & _ & -> & -> & _)%handler_trace_inv.
    rewrite Hrun in Hrun'. by injection Hrun' as <- <-.
Qed.

Lemma C5_witness :
  let o := handler (rt := Concrete.runtime) (uni := Concrete.unicode) (lvm := Concrete.vm)
             (comp := Concrete.compression) (net := Concrete.net)
             (Concrete.globals "none") (Concrete.world Concrete.jsonResponse)
             (Concrete.post Concrete.helloBody) in
  (∀ req, req ∈ forwarded o → outBody req = Concrete.helloBodySorted)
  ∧ (∀ t, broadcast o = Some t →
       RequestBody t = string_of_bytes Concrete.helloBodySorted
       ∧ outBody <$> forwarded o = [Concrete.helloBodySorted]).
Proof.
  apply (C5_no_script_body_is_reserialized (rt := Concrete.runtime) (uni := Concrete.unicode) (lvm := Concrete.vm)
           (codec := Concrete.json) (comp := Concrete.compression) (net := Concrete.net)
           (Concrete.globals "none") (Concrete.world Concrete.jsonResponse)
           (Concrete.post Concrete.helloBody)
           {["messages" :=
               Json.Array [Json.Object {["role" := Json.Str "user";
                                         "content" := Json.Str "Hello!"]}]]}
           [Json.Object {["role" := Json.Str "user"; "content" := Json.Str "Hello!"]}]
           [{["role" := Json.Str "user"; "content" := Json.Str "Hello!"]}]
           Concrete.helloBodySorted).
  - reflexivity.
  - reflexivity.
  - vm_compute. reflexivity.
  - vm_compute. reflexivity.
  - reflexivity.
  - vm_compute. reflexivity.
Defined.

(** ** Hook errors and the client *)

(** C1, as stated, fails: a request hook that reports a failure makes
    the handler answer 500 with the message of the hook-error branch,
    and nothing is forwarded. *)
Lemma C1_counterexample :
  let g := SetRequestHook Concrete.failingHook (Concrete.globals "none") in
  let r := Concrete.post Concrete.helloBody in
  let o := Concrete.serve g (Concrete.world Concrete.jsonResponse) r in
  (requestHook g (luaHookManager g) (reqBody r) (reqHeader r)).2 = Some "hook failed"
  ∧ Http.wireStatus (client o) = 500%Z
  ∧ Http.wireBody (client o) = bytes_of_string ("Request hook error" +:+ LF)
  ∧ forwarded o = []
  ∧ broadcast o = None.
Proof. cbv zeta. repeat split; vm_compute; reflexivity. Qed.

(** C1 (amended). Failures of the Lua scripts never come back as
    errors: [ExecuteRequestHook] and [ExecuteResponseHook] return no
    error, and the built-in [promptHook] returns one only when
    [json.Marshal] fails on the object [json.Unmarshal] has just
    produced.  An error that the installed request hook does
    return is answered with 500 and the text of the hook-error branch;
    nothing is forwarded and no trace recorded.  An error of the
    response hook ends the response after the status and the headers:
    the client receives no body and no trace is recorded. *)
Theorem C1_hook_function_errors_reach_the_client {rt : Runtime} {uni : Unicode}
    {lvm : VM} {codec : Json.Codec} {comp : Compression} {net : NetHTTP}
    (g : Globals) (env : World) (r : Request) :
  (∀ lhm body headers,
     (ExecuteRequestHook lhm body headers).2 = None
     ∧ (ExecuteResponseHook lhm body headers).2 = None)
  ∧ (∀ lhm body headers e,
       (promptHook lhm body headers).2 = Some e →
       ∃ requestBody,
         Json.Unmarshal body = Ok requestBody
         ∧ Json.Marshal (Json.Object requestBody) = Err e)
  ∧ (GoStrings.HasPrefix (reqPath r) "/v1/" = true →
     reqBodyErr r = None →
     is_Some (requestHook g (luaHookManager g) (reqBody r) (reqHeader r)).2 →
     handler g env r
     = {| client := Http.Error "Request hook error" Http.StatusInternalServerError
                      Http.newResponseWriter;
          calls := [CallRequestHook (reqBody r) (reqHeader r)];
          history := traces g; broadcast := None |})
  ∧ (∀ body headers,
       CallResponseHook body headers ∈ calls (handler g env r) →
       is_Some (responseHook g (luaHookManager g) body headers).2 →
       Http.wireBody (client (handler g env r)) = []
       ∧ broadcast (handler g env r) = None
       ∧ history (handler g env r) = traces g).
Proof.
  split; [|split; [|split]].
  - intros lhm body headers.
    split; [apply ExecuteRequestHook_no_error | apply ExecuteResponseHook_no_error].
  - apply promptHook_error.
  - apply handler_request_hook_error.
  - apply handler_response_hook_error.
Qed.

Lemma C1_witness :
  let g := SetRequestHook Concrete.failingHook (Concrete.globals "none") in
  let r := Concrete.post Concrete.helloBody in
  handler (rt := Concrete.runtime) (uni := Concrete.unicode) (lvm := Concrete.vm) (comp := Concrete.compression)
    (net := Concrete.net) g (Concrete.world Concrete.jsonResponse) r
  = {| client := Http.Error "Request hook error" Http.StatusInternalServerError
                   Http.newResponseWriter;
       calls := [CallRequestHook (reqBody r) (reqHeader r)];
       history := traces g; broadcast := None |}.
Proof.
  cbv zeta.
  apply (C1_hook_function_errors_reach_the_client (rt := Concrete.runtime) (uni := Concrete.unicode)
           (lvm := Concrete.vm) (codec := Concrete.json) (comp := Concrete.compression)
           (net := Concrete.net)).
  - reflexivity.
  - reflexivity.
  - vm_compute. eauto.
Defined.

(** With the hooks of the shipped program a script that raises an error
    is not noticed by the client. *)
Example raising_script_is_invisible :
  let o := Concrete.serve (Concrete.globals "raising.lua")
             (Concrete.world Concrete.jsonResponse) (Concrete.post Concrete.helloBody) in
  hasRequest (Concrete.loaded "raising.lua") = true
  ∧ hasResponse (Concrete.loaded "raising.lua") = true
  ∧ Http.wireStatus (client o) = 200%Z
  ∧ Http.wireBody (client o) = Concrete.okBody
  ∧ outBody <$> forwarded o = [Concrete.helloBodySorted].
Proof. cbv zeta. repeat split; vm_compute; reflexivity. Qed.

(** ** Header changes of the response hook *)

(** C4. The code at the failing input: the script of x_test.lua
    defines only [processResponse] and sets the header x-test to 1.  On
    a buffered response the hook runs and its headers are written into
    the handler's header map, but the status line and the header block
    were committed before the body was read, so the client's headers
    are the upstream's and hold no x-test. *)
Theorem C4_hook_headers_miss_the_wire :
  let g := Concrete.globals "x_test.lua" in
  let o := Concrete.serve g (Concrete.world Concrete.jsonResponse)
             (Concrete.post Concrete.helloBody) in
  (hasRequest (luaHookManager g) = false ∧ hasResponse (luaHookManager g) = true)
  ∧ ExecuteResponseHook (rt := Concrete.runtime) (uni := Concrete.unicode) (lvm := Concrete.vm) (luaHookManager g)
      Concrete.okBody (respHeader Concrete.jsonResponse)
    = (Concrete.okBody,
       {["content-type" := ["application/json"]; "x-test" := ["1"]]}, None)
  ∧ Http.handlerHeader (client o) !! "X-Test" = Some ["1"]
  ∧ Http.wireHeader (client o) = {["Content-Type" := ["application/json"]]}
  ∧ Http.wireHeader (client o) !! "X-Test" = None
  ∧ Http.wireHeader (client o) !! "x-test" = None
  ∧ Http.wireBody (client o) = Concrete.okBody.
Proof. cbv zeta. repeat split; vm_compute; reflexivity. Qed.

(** * More of the program *)

(** ** Trace identifiers *)

Section TraceIds.

Lemma Sprintf_x_length (b : bytes) : String.length (Sprintf_x b) = 2 * length b.
Proof. induction b as [|x b IH]; simpl; [done|]. rewrite IH. lia. Qed.

Lemma hexDigit_lower (x : byte) :
  let isHex c := is_digit c || in_range 97 102 c in
  isHex (hexDigit (Byte.to_N x / 16)) && isHex (hexDigit (Byte.to_N x mod 16)) = true.
Proof. by destruct x. Qed.

Lemma parseHex_byte (x : byte) (rest : string) :
  parseHex (String (hexDigit (Byte.to_N x / 16))
              (String (hexDigit (Byte.to_N x mod 16)) rest))
  = cons x <$> parseHex rest.
Proof. by destruct x. Qed.

Lemma parseHex_Sprintf_x (b : bytes) : parseHex (Sprintf_x b) = Some b.
Proof.
  induction b as [|x b IH]; [done|].
  change (Sprintf_x (x :: b))
    with (String (hexDigit (Byte.to_N x / 16))
            (String (hexDigit (Byte.to_N x mod 16)) (Sprintf_x b))).
  by rewrite parseHex_byte, IH.
Qed.

Lemma generateTraceID_bytes (random : bytes) :
  length (take 8 (random ++ replicate 8 x00)) = 8.
Proof. rewrite length_take, length_app, length_replicate. lia. Qed.

End TraceIds.

(** X1. A trace identifier is sixteen characters long, each of them
    a digit or a letter from a to f, whatever the random source
    gives (bytes it does not deliver stay zero). *)
Theorem X1_trace_id_is_sixteen_hex_digits (random : bytes) :
  String.length (generateTraceID random) = 16
  ∧ string_forallb (λ c, is_digit c || in_range 97 102 c) (generateTraceID random) = true.
Proof.
  unfold generateTraceID. cbv zeta. split.
  - by rewrite Sprintf_x_length, generateTraceID_bytes.
  - induction (take 8 (random ++ replicate 8 x00)) as [|x b IH]; [done|].
    change (Sprintf_x (x :: b))
      with (String (hexDigit (Byte.to_N x / 16))
              (String (hexDigit (Byte.to_N x mod 16)) (Sprintf_x b))).
    cbn [string_forallb]. rewrite IH.
    pose proof (hexDigit_lower x) as [-> ->]%andb_true_iff. done.
Qed.

(** X2. The identifier determines the eight bytes it was printed
    from: reading its hexadecimal digits back gives them, so two
    identifiers are equal only when the random bytes are. *)
Theorem X2_trace_id_keeps_the_random_bytes (random : bytes) :
  parseHex (generateTraceID random) = Some (take 8 (random ++ replicate 8 x00))
  ∧ (length random = 8 → parseHex (generateTraceID random) = Some random)
  ∧ ∀ random', length random = 8 → length random' = 8 →
      generateTraceID random = generateTraceID random' → random = random'.
Proof.
  assert (∀ r, length r = 8 → take 8 (r ++ replicate 8 x00) = r) as Hfull.
  { intros r Hr. rewrite take_app_le by lia. apply take_ge. lia. }
  unfold generateTraceID. cbv zeta. split; [apply parseHex_Sprintf_x|]. split.
  - intros Hr. by rewrite parseHex_Sprintf_x, Hfull.
  - intros random' Hr Hr' Heq. apply (f_equal parseHex) in Heq.
    rewrite !parseHex_Sprintf_x, !Hfull in Heq by done. congruence.
Qed.

(** ** The digest of the messages *)

Section Digest.
Context {codec : Json.Codec}.



Lemma substring_all (s : string) : String.substring 0 (String.length s) s = s.
Proof. induction s as [|c s IH]; simpl; [done|]. by rewrite IH. Qed.

End Digest.


(** ** The prompt hook and the Lua request hook *)

(** X4. A request body that does not parse as a JSON object, or
    whose [messages] array holds a value that is no object, comes
    back from [promptHook] as it was, with the headers as they were
    and no error: the Lua request hook is not run on such a body,
    whatever script is loaded. *)
Theorem X4_promptHook_skips_the_script {rt : Runtime} {uni : Unicode} {lvm : VM}
    {codec : Json.Codec} (lhm : LuaHookManager) (body : bytes) (headers : Header) :
  (∀ requestBody, Json.Unmarshal body = Ok requestBody →
     ∃ messages, requestBody !! "messages" = Some (Json.Array messages)
                 ∧ messagesArrayOf messages = None) →
  promptHook lhm body headers = (body, headers, None).
Proof.
  intros Hbad. unfold promptHook.
  destruct (Json.Unmarshal body) as [requestBody|e]; [|done].
  destruct (Hbad requestBody eq_refl) as (messages & -> & ->). done.
Qed.

Lemma X4_witness :
  let lhm := Concrete.loaded "rewrite.lua" in
  let body := bytes_of_string "not json" in
  let headers : Header := {["Content-Type" := ["text/plain"]]} in
  promptHook (rt := Concrete.runtime) (uni := Concrete.unicode) (lvm := Concrete.vm)
    (codec := Concrete.json) lhm body headers = (body, headers, None).
Proof.
  apply (X4_promptHook_skips_the_script (rt := Concrete.runtime) (uni := Concrete.unicode)
           (lvm := Concrete.vm) (codec := Concrete.json)).
  intros requestBody Hparse. vm_compute in Hparse. discriminate Hparse.
Defined.

(** X5. An entry point that returns its two arguments, as those of
    the program's sample script do, leaves the body as it is, byte
    for byte; the headers come back as the conversion to a Lua table
    and back gives them. *)
Theorem X5_identity_script_keeps_the_body {rt : Runtime} {uni : Unicode} {lvm : VM}
    (lhm : LuaHookManager) (L : LState) (body : bytes) (headers : Header) :
  enabled lhm = true →
  luaScript lhm ≠ "" →
  DoString (luaScript lhm) = Ok L →
  let args := [LString (string_of_bytes body); LTab (httpHeaderToLuaTable headers)] in
  let back := luaTableToHttpHeader (httpHeaderToLuaTable headers) in
  (hasRequest lhm = true → PCall L (GetGlobal L "processRequest") args = Ok args →
   ExecuteRequestHook lhm body headers = (body, back, None))
  ∧ (hasResponse lhm = true → PCall L (GetGlobal L "processResponse") args = Ok args →
     ExecuteResponseHook lhm body headers = (body, back, None)).
Proof.
  intros Hon Hscript%String.eqb_neq HL args back.
  assert (bytes_of_string (string_of_bytes body) = body) as Hbody
    by apply list_byte_of_string_of_list_byte.
  split; intros Hhas Hid.
  - unfold ExecuteRequestHook. rewrite Hon, Hhas, Hscript, HL. simpl.
    fold args. rewrite Hid. simpl. by rewrite Hbody.
  - unfold ExecuteResponseHook. rewrite Hon, Hhas, Hscript, HL. simpl.
    fold args. rewrite Hid. simpl. by rewrite Hbody.
Qed.

Lemma X5_witness :
  let lhm := Concrete.loaded "sample.lua" in
  let headers : Header := {["Content-Type" := ["application/json"]]} in
  ExecuteRequestHook (rt := Concrete.runtime) (uni := Concrete.unicode) (lvm := Concrete.vm)
    lhm Concrete.helloBody headers
  = (Concrete.helloBody,
     luaTableToHttpHeader (rt := Concrete.runtime) (lvm := Concrete.vm)
       (httpHeaderToLuaTable (rt := Concrete.runtime) (uni := Concrete.unicode) headers),
     None)
  ∧ ExecuteResponseHook (rt := Concrete.runtime) (uni := Concrete.unicode) (lvm := Concrete.vm)
      lhm Concrete.okBody headers
    = (Concrete.okBody,
       luaTableToHttpHeader (rt := Concrete.runtime) (lvm := Concrete.vm)
         (httpHeaderToLuaTable (rt := Concrete.runtime) (uni := Concrete.unicode) headers),
       None).
Proof.
  cbv zeta. split.
  - apply (X5_identity_script_keeps_the_body (rt := Concrete.runtime) (uni := Concrete.unicode)
             (lvm := Concrete.vm) (Concrete.loaded "sample.lua") Concrete.Sample);
      first [discriminate | reflexivity].
  - apply (X5_identity_script_keeps_the_body (rt := Concrete.runtime) (uni := Concrete.unicode)
             (lvm := Concrete.vm) (Concrete.loaded "sample.lua") Concrete.Sample);
      first [discriminate | reflexivity].
Defined.

(** X6. Of a table with string keys [luaTableToHttpHeader] keeps the
    entries whose value is a table, in whatever order the table is
    visited: a header a script sets to a plain string (or to any
    value that is no table) is dropped, a header set to a list of
    strings within the array bound is kept with its values in order. *)
Theorem X6_luaTableToHttpHeader_keeps_tables_only {rt : Runtime} {lvm : VM}
    (strdict : gmap string LValue) (name : string) :
  let headers := luaTableToHttpHeader (Table [] strdict []) in
  headers !! name = strdict !! name ≫= headerValues
  ∧ (∀ v, strdict !! name = Some v → ¬ isTable v → headers !! name = None)
  ∧ (∀ values, (Z.of_nat (length values) < MaxArrayIndex)%Z →
       strdict !! name = Some (LTab (valueTable values)) →
       headers !! name = Some values).
Proof.
  cbv zeta. rewrite luaTableToHttpHeader_strdict, lookup_omap.
  split; [done|]. split.
  - intros v -> Hv. destruct v; try done. destruct Hv. by eexists.
  - intros values Hlen ->. simpl. rewrite valueTable_array by done.
    by rewrite ForEach_values.
Qed.

(** ** Copying headers *)

Section HeaderCopies.
Context {rt : Runtime}.

Lemma foldl_Add (name : string) (values : list string) (h : Header) :
  values ≠ [] →
  foldl (λ h value, Http.Add h name value) h values
  = <[Textproto.CanonicalMIMEHeaderKey name :=
        default [] (h !! Textproto.CanonicalMIMEHeaderKey name) ++ values]> h.
Proof.
  revert h. induction values as [|v values IH]; intros h Hne; [done|]. simpl.
  destruct values as [|v' values]; [done|].
  rewrite IH by done. unfold Http.Add. cbv zeta.
  rewrite lookup_insert_eq, insert_insert_eq. simpl. by rewrite <- app_assoc.
Qed.

Lemma foldl_Set (name value : string) (values : list string) (h : Header) :
  values ≠ [] →
  foldl (λ h _, Http.Set_ h name value) h values
  = <[Textproto.CanonicalMIMEHeaderKey name := [value]]> h.
Proof.
  revert h. induction values as [|v values IH]; intros h Hne; [done|]. simpl.
  destruct values as [|v' values]; [done|].
  rewrite IH by done. unfold Http.Set_. by rewrite insert_insert_eq.
Qed.

(** Entries copied into an empty map one after the other, each under
    its canonical name: what is found under a name that only one entry
    is copied to is what that entry stores. *)
Lemma copied_lookup (inner : string → list string → Header → Header)
    (stored : string → list string → list string)
    (entries : list (string * list string)) (K : string) :
  (∀ k x acc K', Textproto.CanonicalMIMEHeaderKey k ≠ K' → inner k x acc !! K' = acc !! K') →
  (∀ k acc, inner k [] acc = acc) →
  (∀ k x acc, x ≠ [] → acc !! Textproto.CanonicalMIMEHeaderKey k = None →
     inner k x acc !! Textproto.CanonicalMIMEHeaderKey k = Some (stored k x)) →
  NoDup entries.*1 →
  (∀ k1 x1 k2 x2, (k1, x1) ∈ entries → (k2, x2) ∈ entries →
     Textproto.CanonicalMIMEHeaderKey k1 = K → Textproto.CanonicalMIMEHeaderKey k2 = K →
     k1 = k2) →
  ∀ vs, foldl (λ acc kv, inner kv.1 kv.2 acc) ∅ entries !! K = Some vs
        ↔ ∃ k x, (k, x) ∈ entries ∧ Textproto.CanonicalMIMEHeaderKey k = K
                 ∧ x ≠ [] ∧ vs = stored k x.
Proof.
  intros Hother Hnil Hstore.
  induction entries as [|[k x] entries IH] using rev_ind; intros Hnd Huniq vs.
  - simpl. rewrite lookup_empty. split; [done|]. by intros (? & ? & ?%elem_of_nil & _).
  - rewrite fmap_app in Hnd. apply NoDup_app in Hnd as (Hnd & Hfresh & _).
    assert (∀ x', (k, x') ∉ entries) as Hk.
    { intros x' Hin. apply (Hfresh k); [|simpl; left].
      apply list_elem_of_fmap. by exists (k, x'). }
    specialize (IH Hnd).
    assert (∀ vs, foldl (λ acc kv, inner kv.1 kv.2 acc) ∅ entries !! K = Some vs
                  ↔ ∃ k x, (k, x) ∈ entries ∧ Textproto.CanonicalMIMEHeaderKey k = K
                           ∧ x ≠ [] ∧ vs = stored k x) as IH'.
    { apply IH. intros k1 x1 k2 x2 H1 H2.
      apply (Huniq k1 x1 k2 x2); apply elem_of_app; by left. }
    clear IH. rewrite foldl_snoc. simpl.
    setoid_rewrite elem_of_app. setoid_rewrite list_elem_of_singleton.
    destruct (decide (Textproto.CanonicalMIMEHeaderKey k = K)) as [HK|HK].
    + assert (∀ k' x', (k', x') ∈ entries → Textproto.CanonicalMIMEHeaderKey k' ≠ K) as Hnone.
      { intros k' x' Hin HK'. apply (Hk x').
        assert (k' = k) as <-; [|done].
        apply (Huniq k' x' k x); [apply elem_of_app; by left| |done|done].
        apply elem_of_app. right. by apply list_elem_of_singleton. }
      destruct (decide (x = [])) as [->|Hx].
      * rewrite Hnil, IH'. split.
        -- intros (k' & x' & Hin & HK' & _). by destruct (Hnone k' x').
        -- intros (k' & x' & [Hin|[= -> ->]] & HK' & Hx' & _); [|done].
           by destruct (Hnone k' x').
      * subst K. rewrite Hstore; [|done|].
        2:{ apply eq_None_not_Some. intros [vs' (k' & x' & Hin & HK' & _)%IH'].
            by destruct (Hnone k' x'). }
        split.
        -- intros [= <-]. exists k, x. eauto.
        -- intros (k' & x' & [Hin|[= -> ->]] & HK' & Hx' & ->); [|done].
           by destruct (Hnone k' x').
    + rewrite Hother by done. rewrite IH'. split.
      * intros (k' & x' & Hin & Hrest). exists k', x'. eauto.
      * intros (k' & x' & [Hin|[= -> ->]] & HK' & Hrest); [|done].
        exists k', x'. eauto.
Qed.

Lemma addAll_lookup (src : Header) (K : string) (vs : list string) :
  (∀ k1 k2, is_Some (src !! k1) → is_Some (src !! k2) →
     Textproto.CanonicalMIMEHeaderKey k1 = K → Textproto.CanonicalMIMEHeaderKey k2 = K →
     k1 = k2) →
  addAll src ∅ !! K = Some vs
  ↔ ∃ k, src !! k = Some vs ∧ Textproto.CanonicalMIMEHeaderKey k = K ∧ vs ≠ [].
Proof.
  intros Huniq. unfold addAll, range.
  rewrite (copied_lookup (λ name values dst, foldl (λ dst value, Http.Add dst name value) dst values)
             (λ _ x, x)).
  - setoid_rewrite elem_of_rangeOrder. split.
    + intros (k & x & Hk & HK & Hx & ->). eauto.
    + intros (k & Hk & HK & Hx). exists k, vs. eauto.
  - intros k x acc K' HK. destruct x as [|v x]; [done|].
    rewrite foldl_Add by done. by rewrite lookup_insert_ne.
  - done.
  - intros k x acc Hx Hacc. rewrite foldl_Add by done.
    by rewrite lookup_insert_eq, Hacc.
  - apply NoDup_rangeOrder.
  - intros k1 x1 k2 x2 H1%elem_of_rangeOrder H2%elem_of_rangeOrder. apply Huniq; eauto.
Qed.

(** Headers as the HTTP client delivers them, every name canonical and
    with a value, are copied as they are. *)
Lemma addAll_canonical (src : Header) :
  (∀ k vs, src !! k = Some vs → Textproto.CanonicalMIMEHeaderKey k = k ∧ vs ≠ []) →
  addAll src ∅ = src.
Proof.
  intros Hcanon. apply map_eq. intros K. apply option_eq. intros vs.
  rewrite addAll_lookup.
  - split.
    + intros (k & Hk & <- & _). by rewrite (proj1 (Hcanon _ _ Hk)).
    + intros HK. exists K. destruct (Hcanon _ _ HK). done.
  - intros k1 k2 [x1 H1] [x2 H2] HK1 HK2.
    destruct (Hcanon _ _ H1) as [<- _]. destruct (Hcanon _ _ H2) as [<- _]. congruence.
Qed.

(** The loop that builds the headers of the upstream request. *)
Lemma forwarded_loop_lookup (rHeader : Header) (K : string) (vs : list string) :
  (∀ k1 k2, is_Some (rHeader !! k1) → is_Some (rHeader !! k2) →
     Textproto.CanonicalMIMEHeaderKey k1 = K → Textproto.CanonicalMIMEHeaderKey k2 = K →
     k1 = k2) →
  range rHeader
    (λ name values reqHeader,
       foldl (λ reqHeader value,
                if String.eqb name "Accept-Encoding"
                then Http.Set_ reqHeader name "identity"
                else Http.Add reqHeader name value)
             reqHeader values)
    ∅ !! K = Some vs
  ↔ ∃ k x, rHeader !! k = Some x ∧ Textproto.CanonicalMIMEHeaderKey k = K ∧ x ≠ []
           ∧ vs = if String.eqb k "Accept-Encoding" then ["identity"] else x.
Proof.
  intros Huniq. unfold range.
  rewrite (copied_lookup
             (λ name values reqHeader,
                foldl (λ reqHeader value,
                         if String.eqb name "Accept-Encoding"
                         then Http.Set_ reqHeader name "identity"
                         else Http.Add reqHeader name value)
                      reqHeader values)
             (λ k x, if String.eqb k "Accept-Encoding" then ["identity"] else x)).
  - by setoid_rewrite elem_of_rangeOrder.
  - intros k x acc K' HK. destruct x as [|v x]; [done|].
    destruct (String.eqb k "Accept-Encoding").
    + rewrite foldl_Set by done. by rewrite lookup_insert_ne.
    + rewrite foldl_Add by done. by rewrite lookup_insert_ne.
  - done.
  - intros k x acc Hx Hacc. destruct (String.eqb k "Accept-Encoding").
    + rewrite foldl_Set by done. by rewrite lookup_insert_eq.
    + rewrite foldl_Add by done. by rewrite lookup_insert_eq, Hacc.
  - apply NoDup_rangeOrder.
  - intros k1 x1 k2 x2 H1%elem_of_rangeOrder H2%elem_of_rangeOrder. apply Huniq; eauto.
Qed.

End HeaderCopies.

(** ** Exchanges *)

Section Exchanges.
Context {rt : Runtime} {uni : Unicode} {lvm : VM} {comp : Compression} {net : NetHTTP}.


End Exchanges.


(** X7. The handler sends a request upstream exactly when the path
    starts with /v1/, the body could be read, the request hook
    returned no error and the upstream request could be built, and
    then it sends exactly one.  Otherwise nothing is sent, no trace
    is recorded or broadcast, and the client receives a plain-text
    error with status 404 (for the path) or 500. *)
Theorem X7_handler_forwards_iff {rt : Runtime} {uni : Unicode} {lvm : VM}
    {comp : Compression} {net : NetHTTP} (g : Globals) (env : World) (r : Request) :
  let o := handler g env r in
  let accepted :=
    GoStrings.HasPrefix (reqPath r) "/v1/" = true
    ∧ reqBodyErr r = None
    ∧ (requestHook g (luaHookManager g) (reqBody r) (reqHeader r)).2 = None
    ∧ NewRequest_error (reqMethod r)
        (URL_String "https" "api.openai.com" (reqPath r) (reqRawQuery r)) = None in
  (accepted ↔ ∃ req, forwarded o = [req])
  ∧ (¬ accepted →
     forwarded o = [] ∧ broadcast o = None ∧ history o = traces g
     ∧ Http.wireStatus (client o)
       = (if GoStrings.HasPrefix (reqPath r) "/v1/" then 500 else 404)%Z
     ∧ Http.wireHeader (client o) !! "Content-Type" = Some ["text/plain; charset=utf-8"]).
Proof.
  cbv zeta. unfold handler.
  destruct (GoStrings.HasPrefix (reqPath r) "/v1/"); simpl.
  2:{ split; [split; [by intros [[=] _] | by intros [? [=]]]|done]. }
  destruct (reqBodyErr r) as [e|]; simpl.
  { split; [split; [by intros (_ & [=] & _) | by intros [? [=]]]|done]. }
  destruct (requestHook g (luaHookManager g) (reqBody r) (reqHeader r))
    as [[body headers] [e|]]; simpl.
  { split; [split; [by intros (_ & _ & [=] & _) | by intros [? [=]]]|done]. }
  destruct (NewRequest_error _ _) as [e|]; simpl.
  { split; [split; [by intros (_ & _ & _ & [=]) | by intros [? [=]]]|done]. }
  split; [|by intros []].
  split; [intros _|done]. eexists.
  repeat case_match; simplify_eq; unfold forwarded; simpl; rewrite ?omap_app; simpl; done.
Qed.

(** X8. When the request that was sent upstream fails, the client
    receives 502 with the message of the forwarding branch; the
    request was tried once, nothing was done to a response, and no
    trace is recorded. *)
Theorem X8_upstream_failure_is_bad_gateway {rt : Runtime} {uni : Unicode} {lvm : VM}
    {comp : Compression} {net : NetHTTP} (g : Globals) (env : World) (r : Request)
    (req : UpstreamRequest) (e : error) :
  forwarded (handler g env r) = [req] →
  upstream env req = Err e →
  handler g env r
  = {| client := Http.Error "Failed to forward request" Http.StatusBadGateway
                   Http.newResponseWriter;
       calls := [CallRequestHook (reqBody r) (reqHeader r); CallClientDo req];
       history := traces g; broadcast := None |}.
Proof.
  intros Hfwd Hup.
  destruct (handler_forwarded_inv g env r req)
    as (body & headers & Hpath & Hbody & Hhook & Hnew & _ & ->).
  { rewrite Hfwd. apply list_elem_of_here. }
  unfold upstreamRequest in *. unfold handler.
  rewrite Hpath, Hbody, Hhook, Hnew. simpl. by rewrite Hup.
Qed.

Lemma X8_witness :
  let r := Concrete.post Concrete.helloBody in
  let o := Concrete.serve (Concrete.globals "sample.lua") Samples.unreachable r in
  Http.wireStatus (client o) = 502%Z
  ∧ Http.wireBody (client o) = bytes_of_string ("Failed to forward request" +:+ LF)
  ∧ length (forwarded o) = 1
  ∧ history o = [].
Proof.
  cbv zeta. unfold Concrete.serve.
  rewrite (X8_upstream_failure_is_bad_gateway (rt := Concrete.runtime) (uni := Concrete.unicode)
             (lvm := Concrete.vm) (comp := Concrete.compression) (net := Concrete.net)
             (Concrete.globals "sample.lua") Samples.unreachable
             (Concrete.post Concrete.helloBody)
             (Samples.upstreamOf (Concrete.post Concrete.helloBody)
                {["content-type" := ["application/json"]]})
             "dial tcp: connection refused").
  - repeat split; vm_compute; reflexivity.
  - vm_compute. reflexivity.
  - reflexivity.
Defined.



(** X10. Once the upstream has answered, the client receives the
    upstream's status code and, when the upstream's header names are
    canonical and each has a value (as the HTTP client delivers
    them), exactly the upstream's headers, on every path and
    whatever the hooks return. *)
Theorem X10_client_headers_are_the_upstream_headers {rt : Runtime} {uni : Unicode} {lvm : VM}
    {comp : Compression} {net : NetHTTP} (g : Globals) (env : World) (r : Request)
    (req : UpstreamRequest) (resp : Response) :
  forwarded (handler g env r) = [req] →
  upstream env req = Ok resp →
  (∀ k vs, respHeader resp !! k = Some vs →
     Textproto.CanonicalMIMEHeaderKey k = k ∧ vs ≠ []) →
  Http.wireStatus (client (handler g env r)) = respStatusCode resp
  ∧ Http.wireHeader (client (handler g env r)) = respHeader resp.
Proof.
  intros Hfwd Hup Hcanon.
  destruct (handler_wire_header g env r req resp Hfwd Hup) as [-> ->].
  by rewrite addAll_canonical.
Qed.

Lemma X10_witness :
  let o := Concrete.serve (Concrete.globals "x_test.lua") (Concrete.world Samples.gzipResponse)
             (Concrete.post Concrete.helloBody) in
  Http.wireStatus (client o) = 200%Z
  ∧ Http.wireHeader (client o) = respHeader Samples.gzipResponse.
Proof.
  apply (X10_client_headers_are_the_upstream_headers (rt := Concrete.runtime)
           (uni := Concrete.unicode) (lvm := Concrete.vm) (comp := Concrete.compression)
           (net := Concrete.net)
           (Concrete.globals "x_test.lua") (Concrete.world Samples.gzipResponse)
           (Concrete.post Concrete.helloBody)
           (Samples.upstreamOf (Concrete.post Concrete.helloBody)
              {["Content-Type" := ["application/json"]]})
           Samples.gzipResponse).
  - vm_compute. reflexivity.
  - reflexivity.
  - intros k vs Hk. map_entries Hk; split; first [reflexivity | discriminate].
Defined.



(** X12. For request headers with canonical names and a value each,
    the headers of the upstream request are those headers with
    Accept-Encoding replaced by (or added as) identity; nothing else
    changes, in whatever order the headers are visited. *)
Theorem X12_forwardedHeader_asks_for_identity {rt : Runtime} (rHeader : Header) :
  (∀ k vs, rHeader !! k = Some vs → Textproto.CanonicalMIMEHeaderKey k = k ∧ vs ≠ []) →
  forwardedHeader rHeader = <["Accept-Encoding" := ["identity"]]> rHeader.
Proof.
  intros Hcanon.
  assert (∀ K vs,
            range rHeader
              (λ name values reqHeader,
                 foldl (λ reqHeader value,
                          if String.eqb name "Accept-Encoding"
                          then Http.Set_ reqHeader name "identity"
                          else Http.Add reqHeader name value)
                       reqHeader values)
              ∅ !! K = Some vs
            ↔ ∃ x, rHeader !! K = Some x
                   ∧ vs = if String.eqb K "Accept-Encoding" then ["identity"] else x) as Hloop.
  { intros K vs. rewrite forwarded_loop_lookup.
    - split.
      + intros (k & x & Hk & <- & _ & ->). destruct (Hcanon _ _ Hk) as [-> _]. eauto.
      + intros (x & HK & ->). destruct (Hcanon _ _ HK). exists K, x. done.
    - intros k1 k2 [x1 H1] [x2 H2] HK1 HK2.
      destruct (Hcanon _ _ H1) as [<- _]. destruct (Hcanon _ _ H2) as [<- _]. congruence. }
  unfold forwardedHeader. cbv zeta.
  match goal with |- context [range rHeader ?f ∅] => set (loop := range rHeader f ∅) in * end.
  apply map_eq. intros K. apply option_eq. intros vs.
  destruct (rHeader !! "Accept-Encoding") as [x|] eqn:Hae.
  - assert (loop !! "Accept-Encoding" = Some ["identity"]) as Hid.
    { apply Hloop. exists x. done. }
    unfold Http.Get. change (Textproto.CanonicalMIMEHeaderKey "Accept-Encoding")
      with "Accept-Encoding". rewrite Hid. simpl.
    rewrite Hloop. destruct (decide (K = "Accept-Encoding")) as [->|HK].
    + rewrite lookup_insert_eq. split; [by intros (? & _ & ->)|intros [= <-]; eauto].
    + rewrite lookup_insert_ne by done. apply String.eqb_neq in HK. rewrite HK.
      split; [by intros (? & -> & ->)|eauto].
  - assert (loop !! "Accept-Encoding" = None) as Hnone.
    { apply eq_None_not_Some. intros [vs' (x & Hx & _)%Hloop]. congruence. }
    unfold Http.Get. change (Textproto.CanonicalMIMEHeaderKey "Accept-Encoding")
      with "Accept-Encoding". rewrite Hnone. simpl. unfold Http.Set_.
    change (Textproto.CanonicalMIMEHeaderKey "Accept-Encoding") with "Accept-Encoding".
    destruct (decide (K = "Accept-Encoding")) as [->|HK].
    + by rewrite !lookup_insert_eq.
    + rewrite !lookup_insert_ne by done. rewrite Hloop.
      apply String.eqb_neq in HK. rewrite HK.
      split; [by intros (? & -> & ->)|eauto].
Qed.

Lemma X12_witness :
  forwardedHeader (rt := Concrete.runtime) (reqHeader Samples.postAcceptingGzip)
  = <["Accept-Encoding" := ["identity"]]> (reqHeader Samples.postAcceptingGzip).
Proof.
  apply (X12_forwardedHeader_asks_for_identity (rt := Concrete.runtime)).
  intros k vs Hk. map_entries Hk; split; first [reflexivity | discriminate].
Defined.

(** X13. Under a name in lower case the Accept-Encoding header
    escapes the replacement: when accept-encoding is the only name
    that becomes Accept-Encoding and its first value is not empty,
    the upstream request carries its values as they are.  (The Lua
    request hook returns every name in lower case.) *)
Theorem X13_lower_case_accept_encoding_is_forwarded {rt : Runtime} (rHeader : Header)
    (value : string) (values : list string) :
  rHeader !! "accept-encoding" = Some (value :: values) →
  value ≠ "" →
  (∀ k, is_Some (rHeader !! k) →
     Textproto.CanonicalMIMEHeaderKey k = "Accept-Encoding" → k = "accept-encoding") →
  forwardedHeader rHeader !! "Accept-Encoding" = Some (value :: values).
Proof.
  intros Hae Hvalue Honly.
  unfold forwardedHeader. cbv zeta.
  match goal with |- context [range rHeader ?f ∅] => set (loop := range rHeader f ∅) in * end.
  assert (loop !! "Accept-Encoding" = Some (value :: values)) as Hloop.
  { subst loop. apply forwarded_loop_lookup.
    - intros k1 k2 H1 H2 HK1 HK2. rewrite (Honly k1), (Honly k2); done.
    - exists "accept-encoding", (value :: values). done. }
  unfold Http.Get. change (Textproto.CanonicalMIMEHeaderKey "Accept-Encoding")
    with "Accept-Encoding". rewrite Hloop.
  apply String.eqb_neq in Hvalue. by rewrite Hvalue.
Qed.

Lemma X13_witness :
  let o := Concrete.serve (Concrete.globals "sample.lua") (Concrete.world Concrete.jsonResponse)
             Samples.postAcceptingGzip in
  (λ req, outHeader req !! "Accept-Encoding") <$> forwarded o = [Some ["gzip"]].
Proof.
  cbv zeta.
  assert (forwarded (Concrete.serve (Concrete.globals "sample.lua")
                       (Concrete.world Concrete.jsonResponse) Samples.postAcceptingGzip)
          = [Samples.upstreamOf Samples.postAcceptingGzip
               {["content-type" := ["application/json"]; "accept-encoding" := ["gzip"]]}])
    as -> by (vm_compute; reflexivity).
  change ([forwardedHeader (rt := Concrete.runtime)
             {["content-type" := ["application/json"]; "accept-encoding" := ["gzip"]]}
           !! "Accept-Encoding"] = [Some ["gzip"]]).
  rewrite (X13_lower_case_accept_encoding_is_forwarded (rt := Concrete.runtime)
             {["content-type" := ["application/json"]; "accept-encoding" := ["gzip"]]}
             "gzip" []).
  - reflexivity.
  - reflexivity.
  - discriminate.
  - intros k [vs Hk] Hcanon.
    map_entries Hk; first [reflexivity | vm_compute in Hcanon; discriminate Hcanon].
Defined.

(** X14. Requests served one after the other: the history in the end
    is the history of the start with the broadcast traces inserted
    in order, one outcome for each request; a history that starts
    with at most [tracesMax] traces never exceeds that and ends as
    the last [tracesMax] of everything. *)
Theorem X14_served_history_is_the_last_hundred {rt : Runtime} {uni : Unicode} {lvm : VM}
    {codec : Json.Codec} {comp : Compression} {net : NetHTTP}
    (g : Globals) (exchanges : list (World * Request)) :
  let served := serveAll g exchanges in
  let recorded := omap broadcast served.2 in
  traces served.1 = foldl appendTrace (traces g) recorded
  ∧ length served.2 = length exchanges
  ∧ (length (traces g) ≤ tracesMax →
     length (traces served.1) ≤ tracesMax
     ∧ traces served.1
       = drop (length (traces g ++ recorded) - tracesMax) (traces g ++ recorded)).
Proof.
  cbv zeta.
  assert (traces (serveAll g exchanges).1
          = foldl appendTrace (traces g) (omap broadcast (serveAll g exchanges).2)
          ∧ length (serveAll g exchanges).2 = length exchanges) as [Hfold Hlen].
  { unfold serveAll.
    induction exchanges as [|[env r] exchanges [IH1 IH2]] using rev_ind; [done|].
    rewrite foldl_snoc. simpl. rewrite omap_app, foldl_app, <- IH1. simpl.
    rewrite !length_app, IH2. split; [|done].
    rewrite handler_history. by destruct (broadcast _). }
  split; [exact Hfold|]. split; [exact Hlen|].
  intros Hbound. rewrite Hfold. split.
  - by apply foldl_appendTrace_length_le.
  - by apply foldl_appendTrace_drop.
Qed.

Lemma X14_witness :
  let g := Concrete.globals "sample.lua" in
  let exchanges :=
    [(Concrete.world Concrete.jsonResponse, Concrete.post Concrete.helloBody);
     (Samples.unreachable, Concrete.post Concrete.helloBody);
     (Concrete.world Concrete.sseResponse, Concrete.post Concrete.helloBody)] in
  let served :=
    serveAll (rt := Concrete.runtime) (uni := Concrete.unicode) (lvm := Concrete.vm)
      (comp := Concrete.compression) (net := Concrete.net) g exchanges in
  length (omap broadcast served.2) = 2
  ∧ length (traces served.1) ≤ tracesMax
  ∧ traces served.1 = omap broadcast served.2.
Proof.
  cbv zeta.
  destruct (X14_served_history_is_the_last_hundred (rt := Concrete.runtime)
              (uni := Concrete.unicode) (lvm := Concrete.vm) (codec := Concrete.json)
              (comp := Concrete.compression) (net := Concrete.net)
              (Concrete.globals "sample.lua")
              [(Concrete.world Concrete.jsonResponse, Concrete.post Concrete.helloBody);
               (Samples.unreachable, Concrete.post Concrete.helloBody);
               (Concrete.world Concrete.sseResponse, Concrete.post Concrete.helloBody)])
    as (_ & _ & Hlast).
  destruct Hlast as [Hbound ->]; [vm_compute; lia|].
  split; [vm_compute; reflexivity|]. split; [|vm_compute; reflexivity].
  revert Hbound. vm_compute. lia.
Defined.

(** X15. The decompressor and the response hooks are called for a
    buffered response only: when one of them is called, one request
    was sent upstream, the upstream answered it, the Content-Type
    names neither text/event-stream nor text/plain, and the body was
    read to its end. *)
Theorem X15_response_is_processed_only_when_buffered {rt : Runtime} {uni : Unicode} {lvm : VM}
    {comp : Compression} {net : NetHTTP} (g : Globals) (env : World) (r : Request) (c : Call) :
  c ∈ calls (handler g env r) →
  touchesResponse c = true →
  ∃ req resp,
    forwarded (handler g env r) = [req]
    ∧ upstream env req = Ok resp
    ∧ GoStrings.Contains (Http.Get (respHeader resp) "Content-Type") "text/event-stream" = false
    ∧ GoStrings.Contains (Http.Get (respHeader resp) "Content-Type") "text/plain" = false
    ∧ respBodyErr resp = None.
Proof.
  unfold handler.
  destruct (negb (GoStrings.HasPrefix (reqPath r) "/v1/")); [by intros ?%elem_of_nil|].
  destruct (reqBodyErr r); [by intros ?%elem_of_nil|].
  destruct (requestHook g (luaHookManager g) (reqBody r) (reqHeader r))
    as [[body headers] [e|]]; [by intros ->%list_elem_of_singleton|].
  destruct (NewRequest_error _ _); [by intros ->%list_elem_of_singleton|].
  destruct (upstream env _) as [resp|e] eqn:Hup.
  2:{ simpl. rewrite elem_of_cons, list_elem_of_singleton. by intros [->| ->]. }
  destruct (GoStrings.Contains _ "text/event-stream") eqn:Hsse; simpl.
  { destruct (respBodyErr resp); simpl;
      rewrite elem_of_cons, list_elem_of_singleton; by intros [->| ->]. }
  destruct (GoStrings.Contains _ "text/plain") eqn:Hplain; simpl.
  { destruct (respBodyErr resp); simpl;
      rewrite elem_of_cons, list_elem_of_singleton; by intros [->| ->]. }
  destruct (respBodyErr resp) eqn:Hread; simpl.
  { rewrite elem_of_cons, list_elem_of_singleton. by intros [->| ->]. }
  intros _ _. eexists _, resp. split; [|done].
  repeat case_match; simplify_eq; unfold forwarded; simpl; rewrite ?omap_app; simpl; done.
Qed.

Lemma X15_witness :
  let o := Samples.serve (Concrete.globals "sample.lua") (Concrete.world Samples.gzipResponse)
             (Concrete.post Concrete.helloBody) in
  ∃ req resp,
    forwarded o = [req]
    ∧ upstream (Concrete.world Samples.gzipResponse) req = Ok resp
    ∧ GoStrings.Contains (Http.Get (respHeader resp) "Content-Type") "text/event-stream" = false
    ∧ GoStrings.Contains (Http.Get (respHeader resp) "Content-Type") "text/plain" = false
    ∧ respBodyErr resp = None.
Proof.
  apply (X15_response_is_processed_only_when_buffered (rt := Concrete.runtime)
           (uni := Concrete.unicode) (lvm := Concrete.vm) (comp := Samples.compression)
           (net := Concrete.net)
           (Concrete.globals "sample.lua") (Concrete.world Samples.gzipResponse)
           (Concrete.post Concrete.helloBody)
           (CallDecompressBody Samples.okBodyGzip "gzip")).
  - vm_compute. do 2 apply list_elem_of_further. apply list_elem_of_here.
  - reflexivity.
Defined.



(** ** The two versions of the program *)

Section Versions.
Context {rt : Runtime} {uni : Unicode} {lvm : VM} {codec : Json.Codec}
        {comp : Compression} {net : NetHTTP}.

Lemma decompressBody_first_version (body : bytes) (encoding : string) :
  encoding ≠ "br" → decompressBody body encoding = V1.decompressBody body encoding.
Proof.
  intros Hbr%String.eqb_neq. unfold decompressBody, V1.decompressBody. by rewrite Hbr.
Qed.

Lemma ExecuteResponseHook_without_entry (lhm : LuaHookManager) (body : bytes)
    (headers : Header) :
  enabled lhm && hasResponse lhm = false →
  ExecuteResponseHook lhm body headers = (body, headers, None).
Proof.
  intros Hoff. unfold ExecuteResponseHook. by destruct (enabled lhm), (hasResponse lhm).
Qed.

(** With no Lua response hook to run and no brotli to decode, the
    handler is that of the first version, whatever the hooks are. *)
Lemma handler_first_version (g : Globals) (env : World) (r : Request) :
  enabled (luaHookManager g) && hasResponse (luaHookManager g) = false →
  (∀ req resp, upstream env req = Ok resp →
     Http.Get (respHeader resp) "Content-Encoding" ≠ "br") →
  observable (handler g env r) = observable (V1.handler g env r).
Proof.
  intros Hoff Hbr. unfold handler, V1.handler, observable.
  destruct (negb (GoStrings.HasPrefix (reqPath r) "/v1/")); [done|].
  destruct (reqBodyErr r); [done|].
  destruct (requestHook g (luaHookManager g) (reqBody r) (reqHeader r))
    as [[body headers] [e|]]; [done|].
  destruct (NewRequest_error _ _); [done|].
  destruct (upstream env _) as [resp|e] eqn:Hup; [|done].
  destruct (_ || _); [done|].
  destruct (respBodyErr resp); [done|].
  rewrite <- decompressBody_first_version by eauto.
  destruct (String.eqb _ ""); simpl.
  - destruct (responseHook g _ _ _) as [[b h] [e|]]; simpl.
    + unfold forwarded. simpl. done.
    + rewrite ExecuteResponseHook_without_entry by done. unfold forwarded. simpl. done.
  - destruct (decompressBody _ _) as [d [e|]]; simpl.
    + destruct (responseHook g _ _ _) as [[b h] [e'|]]; simpl.
      * unfold forwarded. simpl. done.
      * rewrite ExecuteResponseHook_without_entry by done. unfold forwarded. simpl. done.
    + destruct (responseHook g _ _ _) as [[b h] [e'|]]; simpl.
      * unfold forwarded. simpl. done.
      * rewrite ExecuteResponseHook_without_entry by done. unfold forwarded. simpl. done.
Qed.

Lemma promptHook_first_version (lhm : LuaHookManager) (body : bytes) (headers : Header) :
  enabled lhm && hasRequest lhm = false →
  promptHook lhm body headers = V1.promptHook lhm body headers.
Proof.
  intros Hoff.
  assert (∀ b, ExecuteRequestHook lhm b headers = (b, headers, None)) as Hskip.
  { intros b. unfold ExecuteRequestHook.
    destruct (enabled lhm), (hasRequest lhm); done. }
  unfold promptHook, V1.promptHook.
  repeat case_match; simplify_eq; by rewrite ?Hskip.
Qed.

Lemma handler_hook_ext (hook1 hook2 : RequestHook) (g : Globals) (env : World) (r : Request) :
  hook1 (luaHookManager g) (reqBody r) (reqHeader r)
  = hook2 (luaHookManager g) (reqBody r) (reqHeader r) →
  V1.handler (SetRequestHook hook1 g) env r = V1.handler (SetRequestHook hook2 g) env r.
Proof. intros Heq. unfold V1.handler. simpl. by rewrite Heq. Qed.

End Versions.

(** X17. With no Lua response hook to run, and an upstream that does
    not answer in brotli, the handler behaves as that of the first
    version of the program: same response to the client, same
    history, same broadcast trace, same upstream request.  With no
    Lua request hook either, this holds for the two programs as they
    start, each with its own [promptHook] installed. *)
Theorem X17_without_script_the_proxy_is_its_first_version {rt : Runtime} {uni : Unicode}
    {lvm : VM} {codec : Json.Codec} {comp : Compression} {net : NetHTTP}
    (g : Globals) (env : World) (r : Request) :
  enabled (luaHookManager g) && hasResponse (luaHookManager g) = false →
  (∀ req resp, upstream env req = Ok resp →
     Http.Get (respHeader resp) "Content-Encoding" ≠ "br") →
  observable (handler g env r) = observable (V1.handler g env r)
  ∧ (enabled (luaHookManager g) && hasRequest (luaHookManager g) = false →
     observable (handler (startOpenAIForwarder g) env r)
     = observable (V1.handler (V1.startOpenAIForwarder g) env r)).
Proof.
  intros Hoff Hbr. split; [by apply handler_first_version|].
  intros Hreq. rewrite handler_first_version by done.
  unfold startOpenAIForwarder, V1.startOpenAIForwarder. f_equal.
  apply handler_hook_ext. by apply promptHook_first_version.
Qed.

Lemma X17_witness :
  let g := {| requestHook := defaultHook; responseHook := defaultHook;
              luaHookManager := luaHookManager0; traces := [] |} in
  let env := Concrete.world Concrete.jsonResponse in
  let r := Concrete.post Concrete.helloBody in
  observable (handler (rt := Concrete.runtime) (uni := Concrete.unicode) (lvm := Concrete.vm)
                (comp := Concrete.compression) (net := Concrete.net)
                (startOpenAIForwarder (rt := Concrete.runtime) (uni := Concrete.unicode)
                   (lvm := Concrete.vm) (codec := Concrete.json) g) env r)
  = observable (V1.handler (rt := Concrete.runtime) (comp := Concrete.compression)
                  (net := Concrete.net)
                  (V1.startOpenAIForwarder (codec := Concrete.json) g) env r).
Proof.
  cbv zeta.
  apply (X17_without_script_the_proxy_is_its_first_version (rt := Concrete.runtime)
           (uni := Concrete.unicode) (lvm := Concrete.vm) (codec := Concrete.json)
           (comp := Concrete.compression) (net := Concrete.net)).
  - reflexivity.
  - intros req resp [= <-]. vm_compute. discriminate.
  - reflexivity.
Defined.

(** ** The hub *)

Section HubFacts.
Context {ord : Hub.ClientOrder}.
Implicit Types (h : Hub.State) (c : Hub.Conn) (peers : Hub.Peers) (t : Trace).

Lemma bool_decide_inj (P Q : Prop) `{Decision P, Decision Q} :
  bool_decide P = bool_decide Q → P ↔ Q.
Proof.
  intros Heq. rewrite <- (bool_decide_eq_true P), <- (bool_decide_eq_true Q).
  by rewrite Heq.
Qed.

Lemma inbox_insert (X Y : gset Hub.Conn) (s : gmap Hub.Conn (list Trace)) c
    (frames : list Trace) :
  Hub.inbox {| Hub.clients := X; Hub.closed := Y; Hub.sent := <[c := frames]> s |} c
  = frames.
Proof. unfold Hub.inbox. simpl. by rewrite lookup_insert_eq. Qed.

Lemma send_accepted peers t h c :
  c ∉ Hub.closed h → peers c (length (Hub.inbox h c)) = true →
  Hub.send peers t h c
  = {| Hub.clients := Hub.clients h; Hub.closed := Hub.closed h;
       Hub.sent := <[c := Hub.inbox h c ++ [t]]> (Hub.sent h) |}.
Proof.
  intros Hopen Hok. unfold Hub.send, Hub.WriteJSON.
  by rewrite bool_decide_eq_true_2, Hok.
Qed.

Lemma send_refused peers t h c :
  c ∈ Hub.closed h ∨ peers c (length (Hub.inbox h c)) = false →
  Hub.send peers t h c
  = {| Hub.clients := Hub.clients h ∖ {[c]}; Hub.closed := {[c]} ∪ Hub.closed h;
       Hub.sent := Hub.sent h |}.
Proof.
  intros Hno. unfold Hub.send, Hub.WriteJSON.
  assert (bool_decide (c ∉ Hub.closed h) && peers c (length (Hub.inbox h c)) = false) as ->.
  { destruct Hno as [Hclosed| ->]; [|by rewrite andb_false_r].
    rewrite bool_decide_eq_false_2; [done|]. by intros []. }
  done.
Qed.

(** A send on one connection leaves every other connection alone. *)
Lemma send_view_other peers t h c c' :
  c' ≠ c → Hub.view (Hub.send peers t h c) c' = Hub.view h c'.
Proof.
  intros Hne. unfold Hub.view, Hub.inbox.
  destruct (decide (c ∈ Hub.closed h)) as [Hclosed|Hopen];
    [|destruct (peers c (length (Hub.inbox h c))) eqn:Hok].
  - rewrite send_refused by eauto. simpl. f_equal. f_equal.
    + apply bool_decide_ext. sets.
    + apply bool_decide_ext. sets.
  - rewrite send_accepted by done. simpl. by rewrite lookup_insert_ne.
  - rewrite send_refused by eauto. simpl. f_equal. f_equal.
    + apply bool_decide_ext. sets.
    + apply bool_decide_ext. sets.
Qed.

(** What a send does to its connection depends on that connection only. *)
Lemma send_view_same peers t h1 h2 c :
  Hub.view h1 c = Hub.view h2 c →
  Hub.view (Hub.send peers t h1 c) c = Hub.view (Hub.send peers t h2 c) c.
Proof.
  unfold Hub.view. intros [= Hclients Hclosed Hinbox].
  apply bool_decide_inj in Hclients, Hclosed.
  destruct (decide (c ∈ Hub.closed h1)) as [Hc1|Hc1].
  - rewrite !send_refused by (left; tauto). simpl. unfold Hub.inbox in *. simpl.
    rewrite Hinbox. f_equal. f_equal; apply bool_decide_ext; sets.
  - destruct (peers c (length (Hub.inbox h1 c))) eqn:Hok.
    + rewrite !send_accepted by (rewrite <- ?Hinbox; tauto). unfold Hub.inbox in *. simpl.
      rewrite !lookup_insert_eq, Hinbox. simpl.
      f_equal. f_equal; apply bool_decide_ext; tauto.
    + rewrite !send_refused by (right; by rewrite <- ?Hinbox). unfold Hub.inbox in *. simpl.
      rewrite Hinbox. f_equal. f_equal; apply bool_decide_ext; sets.
Qed.

Lemma foldl_send_elsewhere peers t h c (l : list Hub.Conn) :
  c ∉ l → Hub.view (foldl (Hub.send peers t) h l) c = Hub.view h c.
Proof.
  revert h. induction l as [|c0 l IH]; intros h Hc; [done|]. simpl.
  rewrite IH by sets. apply send_view_other. sets.
Qed.

Lemma foldl_send_once peers t h c (l : list Hub.Conn) :
  NoDup l → c ∈ l →
  Hub.view (foldl (Hub.send peers t) h l) c = Hub.view (Hub.send peers t h c) c.
Proof.
  revert h. induction l as [|c0 l IH]; intros h Hnd Hc; [by apply elem_of_nil in Hc|].
  apply NoDup_cons in Hnd as [Hc0 Hnd]. simpl.
  destruct (decide (c = c0)) as [->|Hne].
  - by apply foldl_send_elsewhere.
  - rewrite IH by sets. apply send_view_same. by apply send_view_other.
Qed.

(** The replay loop on another connection. *)
Lemma foldl_replay_elsewhere peers h c c' (ts : list Trace) :
  c' ≠ c →
  Hub.view (foldl (λ h t, Hub.send peers t h c) h ts) c' = Hub.view h c'.
Proof.
  intros Hne. revert h. induction ts as [|t ts IH]; intros h; [done|]. simpl.
  rewrite IH. by apply send_view_other.
Qed.

(** The replay loop while every write is accepted. *)
Lemma foldl_replay_accepted peers h c (ts : list Trace) :
  c ∉ Hub.closed h →
  (∀ i, i < length ts → peers c (length (Hub.inbox h c) + i) = true) →
  Hub.view (foldl (λ h t, Hub.send peers t h c) h ts) c
  = (bool_decide (c ∈ Hub.clients h), false, Hub.inbox h c ++ ts).
Proof.
  revert h. induction ts as [|t ts IH]; intros h Hopen Hok.
  - simpl. unfold Hub.view.
    rewrite app_nil_r, (bool_decide_eq_false_2 (c ∈ Hub.closed h)) by done. done.
  - simpl.
    assert (Hub.send peers t h c
            = {| Hub.clients := Hub.clients h; Hub.closed := Hub.closed h;
                 Hub.sent := <[c := Hub.inbox h c ++ [t]]> (Hub.sent h) |}) as ->.
    { apply send_accepted; [done|]. rewrite <- (Hok 0) by (simpl; lia). f_equal. lia. }
    rewrite IH; simpl.
    + by rewrite inbox_insert, <- app_assoc.
    + done.
    + intros i Hi. rewrite inbox_insert, length_app. simpl.
      replace (length (Hub.inbox h c) + 1 + i) with (length (Hub.inbox h c) + S i) by lia.
      apply Hok. simpl. lia.
Qed.

(** The replay loop on a connection that is closed and forgotten. *)
Lemma foldl_replay_closed peers h c (ts : list Trace) :
  c ∈ Hub.closed h → c ∉ Hub.clients h →
  Hub.view (foldl (λ h t, Hub.send peers t h c) h ts) c = (false, true, Hub.inbox h c).
Proof.
  revert h. induction ts as [|t ts IH]; intros h Hclosed Hgone.
  - simpl. unfold Hub.view.
    rewrite (bool_decide_eq_false_2 (c ∈ Hub.clients h)) by done.
    rewrite (bool_decide_eq_true_2 (c ∈ Hub.closed h)) by done. done.
  - simpl. rewrite send_refused by eauto. rewrite IH; simpl; [done|sets|sets].
Qed.

Lemma view_inv h c (isClient isClosed : bool) (frames : list Trace) :
  Hub.view h c = (isClient, isClosed, frames) →
  (c ∈ Hub.clients h ↔ isClient = true) ∧ (c ∈ Hub.closed h ↔ isClosed = true)
  ∧ Hub.inbox h c = frames.
Proof.
  unfold Hub.view. intros [= <- <- <-].
  by rewrite !bool_decide_eq_true.
Qed.

Lemma view_eq_inv h1 h2 c :
  Hub.view h1 c = Hub.view h2 c →
  (c ∈ Hub.clients h1 ↔ c ∈ Hub.clients h2) ∧ (c ∈ Hub.closed h1 ↔ c ∈ Hub.closed h2)
  ∧ Hub.inbox h1 c = Hub.inbox h2 c.
Proof.
  unfold Hub.view. intros [= H1 H2 H3].
  apply bool_decide_inj in H1, H2. done.
Qed.

Lemma register_view peers (ts : list Trace) h c (k : nat) :
  c ∉ Hub.closed h →
  k ≤ length ts →
  (∀ i, i < k → peers c (length (Hub.inbox h c) + i) = true) →
  (k < length ts → peers c (length (Hub.inbox h c) + k) = false) →
  Hub.view (Hub.register peers ts c h) c
  = (bool_decide (k = length ts), bool_decide (k < length ts), Hub.inbox h c ++ take k ts).
Proof.
  intros Hopen Hk Hok Hfail. unfold Hub.register. cbv zeta.
  set (h0 := {| Hub.clients := {[c]} ∪ Hub.clients h; Hub.closed := Hub.closed h;
                Hub.sent := Hub.sent h |}).
  assert (Hub.inbox h0 c = Hub.inbox h c) as Hinbox by done.
  rewrite <- (take_drop k ts) at 1. rewrite foldl_app.
  pose proof (foldl_replay_accepted peers h0 c (take k ts)) as Hrun.
  rewrite length_take, Hinbox in Hrun. simpl in Hrun.
  specialize (Hrun Hopen). rewrite bool_decide_eq_true_2 in Hrun by sets.
  specialize (Hrun ltac:(intros i Hi; apply Hok; lia)).
  destruct (view_inv _ _ _ _ _ Hrun) as (Hc1 & Hc2 & Hc3).
  destruct (drop k ts) as [|t rest] eqn:Hdrop.
  - assert (k = length ts) as Hall.
    { apply (f_equal length) in Hdrop. rewrite length_drop in Hdrop. simpl in Hdrop. lia. }
    simpl. rewrite Hrun. rewrite bool_decide_eq_true_2 by done.
    rewrite bool_decide_eq_false_2 by lia. done.
  - assert (k < length ts) as Hless.
    { apply (f_equal length) in Hdrop. rewrite length_drop in Hdrop. simpl in Hdrop. lia. }
    simpl. set (h1 := foldl _ h0 (take k ts)) in *.
    rewrite send_refused.
    2:{ right. rewrite Hc3, length_app, length_take.
        replace (k `min` length ts) with k by lia. by apply Hfail. }
    rewrite foldl_replay_closed; simpl; [|sets|sets].
    rewrite bool_decide_eq_false_2 by lia. rewrite bool_decide_eq_true_2 by done.
    unfold Hub.inbox in *. simpl. by rewrite Hc3.
Qed.

Lemma register_view_other peers (ts : list Trace) h c c' :
  c' ≠ c → Hub.view (Hub.register peers ts c h) c' = Hub.view h c'.
Proof.
  intros Hne. unfold Hub.register. cbv zeta. rewrite foldl_replay_elsewhere by done.
  unfold Hub.view, Hub.inbox. simpl. f_equal. f_equal. apply bool_decide_ext. sets.
Qed.

Lemma broadcast_view peers t h c :
  Hub.view (Hub.broadcast peers t h) c
  = if decide (c ∈ Hub.clients h) then Hub.view (Hub.send peers t h c) c else Hub.view h c.
Proof.
  unfold Hub.broadcast.
  assert (NoDup (Hub.rangeClients (Hub.clients h))) as Hnd.
  { rewrite Hub.rangeClients_perm. apply NoDup_elements. }
  assert (c ∈ Hub.rangeClients (Hub.clients h) ↔ c ∈ Hub.clients h) as Hin.
  { rewrite Hub.rangeClients_perm. apply elem_of_elements. }
  case_decide as Hc.
  - apply foldl_send_once; tauto.
  - apply foldl_send_elsewhere. tauto.
Qed.

Lemma unregister_view h c c' :
  Hub.view (Hub.unregister c h) c'
  = if decide (c' = c ∧ c ∈ Hub.clients h) then (false, true, Hub.inbox h c')
    else Hub.view h c'.
Proof.
  unfold Hub.unregister. destruct (decide (c ∈ Hub.clients h)) as [Hc|Hc].
  - rewrite bool_decide_eq_true_2 by done. unfold Hub.view, Hub.inbox. simpl.
    case_decide as Hcc.
    + destruct Hcc as [-> _]. f_equal. f_equal.
      * apply bool_decide_eq_false_2. sets.
      * apply bool_decide_eq_true_2. sets.
    + f_equal. f_equal; apply bool_decide_ext; sets.
  - rewrite bool_decide_eq_false_2 by done. rewrite decide_False by tauto. done.
Qed.

End HubFacts.

(** X18. Registering a viewer replays the history in order until a
    write fails.  If the first [k] writes succeed and the next one
    fails, the viewer has received the first [k] traces, is closed
    and is no client; if all succeed it has received the whole
    history and is a client.  No other connection is touched. *)
Theorem X18_register_replays_until_a_write_fails (peers : Hub.Peers) (traces : list Trace)
    (client : Hub.Conn) (h : Hub.State) (k : nat) :
  client ∉ Hub.closed h →
  k ≤ length traces →
  (∀ i, i < k → peers client (length (Hub.inbox h client) + i) = true) →
  (k < length traces → peers client (length (Hub.inbox h client) + k) = false) →
  let h' := Hub.register peers traces client h in
  Hub.inbox h' client = Hub.inbox h client ++ take k traces
  ∧ (client ∈ Hub.clients h' ↔ k = length traces)
  ∧ (client ∈ Hub.closed h' ↔ k < length traces)
  ∧ ∀ c, c ≠ client →
      Hub.inbox h' c = Hub.inbox h c
      ∧ (c ∈ Hub.clients h' ↔ c ∈ Hub.clients h)
      ∧ (c ∈ Hub.closed h' ↔ c ∈ Hub.closed h).
Proof.
  intros Hopen Hk Hok Hfail. cbv zeta.
  destruct (view_inv _ _ _ _ _ (register_view peers traces h client k Hopen Hk Hok Hfail))
    as (Hclients & Hclosed & Hinbox).
  rewrite bool_decide_eq_true in Hclients, Hclosed.
  split; [exact Hinbox|]. split; [exact Hclients|]. split; [exact Hclosed|].
  intros c Hc.
  destruct (view_eq_inv _ _ _ (register_view_other peers traces h client c Hc))
    as (H1 & H2 & H3).
  done.
Qed.

Lemma X18_witness :
  let h := Hub.register Samples.secondDrops (Concrete.tracesUpTo 3) 2 Hub.newHub in
  Hub.inbox h 2 = [Concrete.traceNo 0]
  ∧ (2 ∈ Hub.clients h ↔ 1 = 3)
  ∧ (2 ∈ Hub.closed h ↔ 1 < 3).
Proof.
  cbv zeta.
  destruct (X18_register_replays_until_a_write_fails Samples.secondDrops
              (Concrete.tracesUpTo 3) 2 Hub.newHub 1)
    as (Hinbox & Hclients & Hclosed & _).
  - apply not_elem_of_empty.
  - simpl. lia.
  - intros i Hi. assert (i = 0) as -> by lia. reflexivity.
  - intros _. reflexivity.
  - split; [exact Hinbox|]. split; [exact Hclients|exact Hclosed].
Defined.

(** X19. A broadcast, in whatever order the clients are visited: a
    client that is open and takes the write receives the trace once
    and stays; a client that is closed or refuses the write is
    closed and removed, having received nothing; a connection that
    is no client receives nothing and stays as it is. *)
Theorem X19_broadcast_reaches_every_live_client {ord : Hub.ClientOrder} (peers : Hub.Peers)
    (trace : Trace) (h : Hub.State) (c : Hub.Conn) :
  let h' := Hub.broadcast peers trace h in
  let live := c ∈ Hub.clients h ∧ (c ∉ Hub.closed h)
              ∧ peers c (length (Hub.inbox h c)) = true in
  (live → Hub.inbox h' c = Hub.inbox h c ++ [trace]
          ∧ c ∈ Hub.clients h' ∧ (c ∉ Hub.closed h'))
  ∧ (c ∈ Hub.clients h → ¬ live →
     Hub.inbox h' c = Hub.inbox h c ∧ (c ∉ Hub.clients h') ∧ c ∈ Hub.closed h')
  ∧ (c ∉ Hub.clients h →
     Hub.inbox h' c = Hub.inbox h c ∧ (c ∉ Hub.clients h')
     ∧ (c ∈ Hub.closed h' ↔ c ∈ Hub.closed h)).
Proof.
  cbv zeta. pose proof (broadcast_view peers trace h c) as Hview.
  split; [|split].
  - intros (Hc & Hopen & Hok). rewrite decide_True in Hview by done.
    rewrite send_accepted in Hview by done.
    apply view_eq_inv in Hview as (H1 & H2 & H3). simpl in *.
    rewrite inbox_insert in H3. tauto.
  - intros Hc Hdead. rewrite decide_True in Hview by done.
    rewrite send_refused in Hview.
    2:{ destruct (decide (c ∈ Hub.closed h)); [tauto|].
        destruct (peers c (length (Hub.inbox h c))); tauto. }
    apply view_eq_inv in Hview as (H1 & H2 & H3). simpl in *.
    split; [exact H3|]. split; [rewrite H1|rewrite H2]; sets.
  - intros Hc. rewrite decide_False in Hview by done.
    apply view_eq_inv in Hview as (H1 & H2 & H3). tauto.
Qed.

(** X20. The hub writes to registered connections only: whatever
    events it handles, a connection that is no client and is not
    registered by one of them receives nothing and does not become a
    client. *)
Theorem X20_hub_writes_to_registered_clients_only {ord : Hub.ClientOrder} (peers : Hub.Peers)
    (events : list Hub.Event) (h : Hub.State) (c : Hub.Conn) :
  c ∉ Hub.clients h →
  (∀ traces, Hub.Register c traces ∉ events) →
  Hub.inbox (Hub.run peers events h) c = Hub.inbox h c
  ∧ c ∉ Hub.clients (Hub.run peers events h).
Proof.
  unfold Hub.run. revert h.
  induction events as [|ev events IH]; intros h Hc Hreg; [done|]. simpl.
  assert (Hub.inbox (Hub.step peers h ev) c = Hub.inbox h c
          ∧ c ∉ Hub.clients (Hub.step peers h ev)) as [Hinbox Hstep].
  { destruct ev as [c' ts|c'|t]; simpl.
    - assert (c ≠ c') as Hne.
      { intros ->. apply (Hreg ts). apply list_elem_of_here. }
      destruct (view_eq_inv _ _ _ (register_view_other peers ts h c' c Hne))
        as (H1 & _ & H3). tauto.
    - pose proof (unregister_view h c' c) as Hview.
      rewrite decide_False in Hview by (intros [-> ?]; done).
      apply view_eq_inv in Hview as (H1 & _ & H3). tauto.
    - pose proof (broadcast_view peers t h c) as Hview.
      rewrite decide_False in Hview by done.
      apply view_eq_inv in Hview as (H1 & _ & H3). tauto. }
  destruct (IH (Hub.step peers h ev) Hstep) as [IH1 IH2].
  { intros ts Hin. apply (Hreg ts). by apply list_elem_of_further. }
  split; [by rewrite IH1|done].
Qed.

Lemma X20_witness :
  let events :=
    [Hub.Register 1 (Concrete.tracesUpTo 2); Hub.Broadcast (Concrete.traceNo 2);
     Hub.Unregister 2; Hub.Broadcast (Concrete.traceNo 3)] in
  let h := Hub.run (ord := Samples.clientOrder) Samples.allListening events Hub.newHub in
  Hub.inbox h 2 = [] ∧ 2 ∉ Hub.clients h.
Proof.
  apply (X20_hub_writes_to_registered_clients_only (ord := Samples.clientOrder)).
  - apply not_elem_of_empty.
  - intros traces Hin.
    repeat (apply elem_of_cons in Hin as [Hin|Hin]; [discriminate Hin|]).
    by apply elem_of_nil in Hin.
Defined.

(** X21. A trace can reach a viewer twice.  When the hub registers
    the viewer before the handler has inserted the trace, the viewer
    receives the history and then the trace.  When it registers the
    viewer after the insertion and before it handles the broadcast,
    the replayed history ends with the trace and the broadcast
    delivers it once more. *)
Theorem X21_trace_is_sent_twice_to_a_late_viewer {ord : Hub.ClientOrder} (peers : Hub.Peers)
    (history : list Trace) (trace : Trace) (client : Hub.Conn) (h : Hub.State) :
  client ∉ Hub.closed h →
  (∀ n, peers client n = true) →
  let registeredFirst :=
    Hub.broadcast peers trace (Hub.register peers history client h) in
  let appendedFirst :=
    Hub.broadcast peers trace (Hub.register peers (appendTrace history trace) client h) in
  Hub.inbox registeredFirst client = Hub.inbox h client ++ history ++ [trace]
  ∧ Hub.inbox appendedFirst client
    = Hub.inbox h client ++ appendTrace history trace ++ [trace]
  ∧ last (appendTrace history trace) = Some trace.
Proof.
  intros Hopen Hok. cbv zeta.
  assert (∀ ts, Hub.inbox (Hub.broadcast peers trace (Hub.register peers ts client h)) client
                = Hub.inbox h client ++ ts ++ [trace]) as Hboth.
  { intros ts.
    destruct (view_inv _ _ _ _ _
                (register_view peers ts h client (length ts) Hopen (le_n _)
                   (λ i _, Hok _) (λ Hlt, False_ind _ (Nat.lt_irrefl _ Hlt))))
      as (Hclients & Hclosed & Hinbox).
    rewrite bool_decide_eq_true in Hclients, Hclosed.
    pose proof (broadcast_view peers trace (Hub.register peers ts client h) client) as Hview.
    rewrite decide_True in Hview by tauto.
    rewrite send_accepted in Hview by (first [apply Hok | intros ?%Hclosed; lia]).
    apply view_eq_inv in Hview as (_ & _ & ->).
    rewrite inbox_insert, Hinbox, firstn_all. by rewrite <- app_assoc. }
  split; [apply Hboth|]. split; [apply Hboth|].
  rewrite appendTrace_drop, drop_app_le
    by (rewrite length_app; unfold tracesMax; simpl; lia).
  apply last_snoc.
Qed.

Lemma X21_witness :
  let late :=
    Hub.broadcast (ord := Samples.clientOrder) Samples.allListening (Concrete.traceNo 2)
      (Hub.register Samples.allListening
         (appendTrace (Concrete.tracesUpTo 2) (Concrete.traceNo 2)) 1 Hub.newHub) in
  Hub.inbox late 1 = Concrete.tracesUpTo 3 ++ [Concrete.traceNo 2].
Proof.
  cbv zeta.
  destruct (X21_trace_is_sent_twice_to_a_late_viewer (ord := Samples.clientOrder)
              Samples.allListening (Concrete.tracesUpTo 2) (Concrete.traceNo 2) 1 Hub.newHub)
    as (_ & Hlate & _).
  - apply not_elem_of_empty.
  - reflexivity.
  - exact Hlate.
Defined.

(** ** The trace viewer *)

Section ViewerFacts.
Context {T : Type} (valid : T → bool).

Lemma filter_all_valid (l : list T) :
  Forall (λ x, valid x = true) l → filter (λ x, Is_true (valid x)) l = l.
Proof.
  induction 1 as [|x l Hx Hl IH]; [done|].
  rewrite filter_cons_True by (by rewrite Hx). by rewrite IH.
Qed.

Lemma onmessage_valid (prev : list T) (t : T) :
  valid t = true → Forall (λ x, valid x = true) prev →
  Viewer.onmessage valid prev t = t :: take 99 prev.
Proof.
  intros Ht Hprev. unfold Viewer.onmessage. rewrite Ht.
  rewrite filter_all_valid by (by constructor). done.
Qed.

(** The messages handled in order, from a list of valid traces: the
    valid ones in front, newest first, and the hundred first of all. *)
Lemma foldl_onmessage (prev messages : list T) :
  Forall (λ x, valid x = true) prev →
  length prev ≤ 100 →
  foldl (Viewer.onmessage valid) prev messages
  = take 100 (reverse (filter (λ x, Is_true (valid x)) messages) ++ prev).
Proof.
  intros Hprev Hlen.
  induction messages as [|m messages IH] using rev_ind.
  - simpl. by rewrite take_ge.
  - rewrite foldl_snoc, IH, filter_app.
    destruct (valid m) eqn:Hm.
    + rewrite filter_cons_True by (by rewrite Hm). rewrite filter_nil.
      rewrite reverse_app. simpl.
      rewrite onmessage_valid; [|done|].
      * by rewrite take_take.
      * apply Forall_take, Forall_app. split; [|done].
        apply Forall_reverse, Forall_forall. intros x Hx%list_elem_of_filter.
        destruct Hx as [Hx _]. by apply Is_true_eq_true.
    + rewrite filter_cons_False by (rewrite Hm; simpl; tauto). rewrite filter_nil, app_nil_r.
      unfold Viewer.onmessage. by rewrite Hm.
Qed.

End ViewerFacts.

(** X22. The viewer's list after a run of messages, from a list of
    at most a hundred valid traces: the valid messages, the last one
    first, followed by the old list, cut to the first hundred.  It
    never holds more than a hundred traces, nor an invalid one. *)
Theorem X22_viewer_shows_the_newest_hundred {T : Type} (valid : T → bool)
    (prev messages : list T) :
  Forall (λ x, valid x = true) prev →
  length prev ≤ 100 →
  let shown := foldl (Viewer.onmessage valid) prev messages in
  shown = take 100 (reverse (filter (λ x, Is_true (valid x)) messages) ++ prev)
  ∧ length shown ≤ 100
  ∧ Forall (λ x, valid x = true) shown.
Proof.
  intros Hprev Hlen. cbv zeta. rewrite foldl_onmessage by done.
  split; [done|]. split.
  - rewrite length_take. lia.
  - apply Forall_take, Forall_app. split; [|done].
    apply Forall_reverse, Forall_forall. intros x Hx%list_elem_of_filter.
    destruct Hx as [Hx _]. by apply Is_true_eq_true.
Qed.

Lemma X22_witness :
  foldl (Viewer.onmessage Samples.validTrace) [Concrete.traceNo 0]
    [Concrete.traceNo 1; Concrete.traceNo 2]
  = [Concrete.traceNo 2; Concrete.traceNo 1; Concrete.traceNo 0].
Proof.
  apply (X22_viewer_shows_the_newest_hundred Samples.validTrace
           [Concrete.traceNo 0] [Concrete.traceNo 1; Concrete.traceNo 2]).
  - repeat constructor.
  - simpl. lia.
Defined.

(** X23. A viewer that starts empty and is sent every recorded trace
    shows the proxy's history in reverse: the same traces, at most a
    hundred, newest first. *)
Theorem X23_viewer_mirrors_the_history (valid : Trace → bool) (recorded : list Trace) :
  Forall (λ t, valid t = true) recorded →
  foldl (Viewer.onmessage valid) [] recorded = reverse (foldl appendTrace [] recorded).
Proof.
  intros Hvalid.
  rewrite foldl_onmessage by (simpl; first [apply Forall_nil_2 | lia]).
  rewrite filter_all_valid, app_nil_r by done.
  rewrite foldl_appendTrace_drop by (simpl; lia). simpl.
  by rewrite take_reverse.
Qed.

Lemma X23_witness :
  foldl (Viewer.onmessage Samples.validTrace) [] (Concrete.tracesUpTo 103)
  = reverse (foldl appendTrace [] (Concrete.tracesUpTo 103)).
Proof.
  apply (X23_viewer_mirrors_the_history Samples.validTrace).
  apply Forall_fmap, Forall_forall. done.
Defined.

(** X24. A viewer that has fetched the history from /traces and then
    handles the hub's replay of that history shows it twice: the
    replay, newest first, then the fetched list, oldest first, cut
    to a hundred. *)
Theorem X24_fetched_and_replayed_history_shows_twice {T : Type} (valid : T → bool)
    (history : list T) :
  Forall (λ x, valid x = true) history →
  length history ≤ 100 →
  foldl (Viewer.onmessage valid) (Viewer.fetchTraces valid history) history
  = take 100 (reverse history ++ history).
Proof.
  intros Hvalid Hlen. unfold Viewer.fetchTraces.
  rewrite filter_all_valid by done.
  rewrite foldl_onmessage by done. by rewrite filter_all_valid.
Qed.

Lemma X24_witness :
  foldl (Viewer.onmessage Samples.validTrace)
    (Viewer.fetchTraces Samples.validTrace (Concrete.tracesUpTo 2)) (Concrete.tracesUpTo 2)
  = [Concrete.traceNo 1; Concrete.traceNo 0; Concrete.traceNo 0; Concrete.traceNo 1].
Proof.
  apply (X24_fetched_and_replayed_history_shows_twice Samples.validTrace (Concrete.tracesUpTo 2)).
  - repeat constructor.
  - simpl. lia.
Defined.

(** ** Loading, again and again *)

(** X25. After any number of loads from its initial state the
    manager is either still in that state or enabled with a script
    that runs and defines at least one entry point, the flags
    telling which. *)
Theorem X25_an_enabled_manager_holds_a_running_script {lvm : VM}
    (loads : list (FileSystem * string)) :
  let lhm := foldl (λ lhm load, mainLoadsHook load.1 load.2 lhm) luaHookManager0 loads in
  lhm = luaHookManager0
  ∨ (enabled lhm = true
     ∧ hasRequest lhm || hasResponse lhm = true
     ∧ ∃ L, DoString (luaScript lhm) = Ok L
            ∧ hasRequest lhm = isFunction (GetGlobal L "processRequest")
            ∧ hasResponse lhm = isFunction (GetGlobal L "processResponse")).
Proof.
  cbv zeta. induction loads as [|[fs luaFile] loads IH] using rev_ind; [by left|].
  rewrite foldl_snoc. simpl. unfold mainLoadsHook, LoadHookScript.
  destruct (String.eqb luaFile ""); [exact IH|].
  destruct (fs luaFile) as [data|e]; [|exact IH].
  destruct (DoString (string_of_bytes data)) as [L|e] eqn:Hdo; [|exact IH].
  destruct (isFunction (GetGlobal L "processRequest")) eqn:Hreq;
    destruct (isFunction (GetGlobal L "processResponse")) eqn:Hresp; simpl;
    [right; split; [done|]; split; [done|]; exists L; by rewrite Hdo, Hreq, Hresp ..
    |exact IH].
Qed.
